(** * update_tickers.py: normalisation of screener rows and the CSV writer

    A shallow embedding of [src/update_tickers.py] and the properties of its
    two phases: [fetch_tickers] (country filter, de-duplication by symbol,
    field parsing) and [save_files] (sort by market capitalisation, the
    ticker lists and the per-industry partition files).

    Conventions of the embedding.
    - A Python [str] is a Rocq [string]; a character is read as the code
      point of the same number, so the model covers U+0000..U+00FF and the
      character classes below are Python's classes on that range.
    - A Python [float] is a [spec_float] of binary64 (53 bits of precision,
      exponent bound 1024); [None] is [None].
    - A JSON row is a finite map from keys to strings (section 3 of the
      specification: every field is a string or absent).
    - The HTTP request is not modelled: [fetch_tickers] starts from the
      decoded row list, or from the exception the request raised.
    - The sort of the data frame is pandas' and not in the source; it is
      taken by its contract (class [SortValues]).
    - Console output is not part of the model.  The file system effects of
      [save_files] are recorded as a trace which is then run on a file
      system state; a CSV file is the list of its rows. *)

From Stdlib Require Import ZArith NArith Ascii String List Bool Lia.
From Stdlib Require Import SpecFloat Sorted Permutation.
From stdpp Require Import base option list sorting gmap strings pretty.

#[local] Set Warnings "-clear-no-such-hyp".

Local Open Scope string_scope.
Local Open Scope list_scope.
Local Open Scope Z_scope.

(** ** Python strings *)

Module Py.

Definition ord (c : ascii) : N := N_of_ascii c.

Definition between (lo hi : N) (c : ascii) : bool :=
  ((lo <=? ord c) && (ord c <=? hi))%N.

(** [str.isspace] on one character, which is also what [str.strip()] removes
    and what [\s] matches in a [str] pattern. *)
Definition isspace (c : ascii) : bool :=
  between 9 13 c || between 28 32 c || (ord c =? 133)%N || (ord c =? 160)%N.

Definition isdigit (c : ascii) : bool := between 48 57 c.

(** [str.isalnum] on one character of U+0000..U+00FF: letters, decimal
    digits and the other numeric characters. *)
Definition isalnum (c : ascii) : bool :=
  isdigit c || between 65 90 c || between 97 122 c
  || (ord c =? 170)%N || (ord c =? 181)%N || (ord c =? 186)%N
  || between 178 179 c || (ord c =? 185)%N || between 188 190 c
  || between 192 214 c || between 216 246 c || between 248 255 c.

(** [\w] in a [str] pattern. *)
Definition isword (c : ascii) : bool := isalnum c || (ord c =? 95)%N.

(** [str.lower] on one character of U+0000..U+00FF. *)
Definition lower_char (c : ascii) : ascii :=
  if between 65 90 c || between 192 214 c || between 216 222 c
  then ascii_of_N (ord c + 32) else c.

Definition chars (s : string) : list ascii := list_ascii_of_string s.
Definition str (l : list ascii) : string := string_of_list_ascii l.

Fixpoint lstrip_chars (l : list ascii) : list ascii :=
  match l with
  | c :: l' => if isspace c then lstrip_chars l' else l
  | [] => []
  end.

Definition strip_chars (l : list ascii) : list ascii :=
  rev (lstrip_chars (rev (lstrip_chars l))).

(** [s.strip()] *)
Definition strip (s : string) : string := str (strip_chars (chars s)).

(** [s.replace(c, '')] for a one-character [c] *)
Definition remove_char (c : ascii) (s : string) : string :=
  str (List.filter (fun x => negb (Ascii.eqb x c)) (chars s)).

(** [s.lower()] *)
Definition lower (s : string) : string := str (List.map lower_char (chars s)).

(** [s.endswith(c)] for a one-character [c] *)
Definition endswith (s : string) (c : ascii) : bool :=
  match rev (chars s) with
  | x :: _ => Ascii.eqb x c
  | [] => false
  end.

(** [s[:-1]] *)
Definition drop_last (s : string) : string := str (removelast (chars s)).

(** Truth value of a string: [not s] holds of the empty string only. *)
Definition truthy (s : string) : bool := negb (String.eqb s "").

(** [sorted] on strings: ascending by code points.  Insertion from the
    right keeps equal keys in their input order, as Python's sort does. *)
Fixpoint insert_sorted (x : string) (l : list string) : list string :=
  match l with
  | [] => [x]
  | y :: l' => if String.leb x y then x :: l else y :: insert_sorted x l'
  end.

Definition sorted (l : list string) : list string :=
  foldr insert_sorted [] l.

End Py.

(** ** Python numbers: [float] and [int] of a string *)

Module Num.

Definition prec : Z := 53.
Definition emax : Z := 1024.

Definition fmul : spec_float -> spec_float -> spec_float := SFmul prec emax.

(** The binary64 number nearest to [m * 10^e] (ties to even), with sign [s]. *)
Definition of_decimal (s : bool) (m : Z) (e : Z) : spec_float :=
  match m with
  | Zpos p =>
      if 0 <=? e
      then binary_round prec emax s (p * Z.to_pos (10 ^ e))%positive 0
      else let '(q, e', l) :=
             SFdiv_core_binary prec emax (Zpos p) 0 (10 ^ (- e)) 0 in
           binary_round_aux prec emax s q e' l
  | _ => S754_zero s
  end.

(** An integer as a float, as a float literal such as [1e12] denotes it. *)
Definition of_Z (z : Z) : spec_float :=
  binary_normalize prec emax z 0 false.

Definition digit_val (c : ascii) : Z := Z.of_N (Py.ord c) - 48.

Definition digits_val (ds : list ascii) : Z :=
  fold_left (fun acc c => 10 * acc + digit_val c) ds 0.

Fixpoint span_digits (l : list ascii) : list ascii * list ascii :=
  match l with
  | c :: l' =>
      if Py.isdigit c
      then let '(ds, r) := span_digits l' in (c :: ds, r)
      else ([], l)
  | [] => ([], [])
  end.

Definition take_sign (l : list ascii) : bool * list ascii :=
  match l with
  | "-"%char :: r => (true, r)
  | "+"%char :: r => (false, r)
  | _ => (false, l)
  end.

(** C-level white space, which the number parsers skip at both ends. *)
Definition c_isspace (c : ascii) : bool :=
  Py.between 9 13 c || (Py.ord c =? 32)%N.

Fixpoint c_lstrip (l : list ascii) : list ascii :=
  match l with
  | c :: l' => if c_isspace c then c_lstrip l' else l
  | [] => []
  end.

Definition c_strip (l : list ascii) : list ascii :=
  rev (c_lstrip (rev (c_lstrip l))).

(** Before parsing a number out of a [str], CPython maps the characters that
    are not ASCII: white space becomes a blank, a decimal digit its ASCII
    digit, and the first other character becomes ['?'] and ends the text.
    No character of U+0080..U+00FF is a decimal digit. *)
Fixpoint to_ascii_go (l : list ascii) : list ascii :=
  match l with
  | [] => []
  | c :: l' =>
      if (Py.ord c <? 127)%N then c :: to_ascii_go l'
      else if Py.isspace c then " "%char :: to_ascii_go l'
      else ["?"%char]
  end.

Definition to_ascii (l : list ascii) : list ascii :=
  if forallb (fun c => (Py.ord c <? 128)%N) l then l else to_ascii_go l.

(** Underscores in a float text: each one stands between two digits; they
    are dropped before the text is parsed. *)
Fixpoint drop_underscores (prev : ascii) (l : list ascii)
  : option (list ascii) :=
  match l with
  | [] => if Ascii.eqb prev "_" then None else Some []
  | c :: l' =>
      if Ascii.eqb c "_"
      then if Py.isdigit prev then drop_underscores c l' else None
      else if Ascii.eqb prev "_" && negb (Py.isdigit c) then None
      else cons c <$> drop_underscores c l'
  end.

Definition lower_ascii (c : ascii) : ascii :=
  if Py.between 65 90 c then ascii_of_N (Py.ord c + 32) else c.

(** [inf], [infinity] and [nan], in any case, after the sign. *)
Definition inf_or_nan (s : bool) (l : list ascii) : option spec_float :=
  let w := Py.str (List.map lower_ascii l) in
  if String.eqb w "inf" || String.eqb w "infinity" then Some (S754_infinity s)
  else if String.eqb w "nan" then Some S754_nan
  else None.

(** A decimal text after the sign: digits with an optional fraction and an
    optional exponent, at least one digit before the exponent, and nothing
    left over. *)
Definition decimal (s : bool) (l : list ascii) : option spec_float :=
  let '(ip, l1) := span_digits l in
  let '(fp, l2) :=
    match l1 with
    | "."%char :: r => span_digits r
    | _ => ([], l1)
    end in
  match ip ++ fp with
  | [] => None
  | ds =>
      let '(ex, l3) :=
        match l2 with
        | c :: r =>
            if Ascii.eqb c "e" || Ascii.eqb c "E"
            then let '(es, r1) := take_sign r in
                 let '(ed, r2) := span_digits r1 in
                 match ed with
                 | [] => (0, l2)
                 | _ => ((if es then - digits_val ed else digits_val ed), r2)
                 end
            else (0, l2)
        | [] => (0, l2)
        end in
      match l3 with
      | [] => Some (of_decimal s (digits_val ds) (ex - Z.of_nat (length fp)))
      | _ => None
      end
  end.

(** [float(s)] for a string [s]; [None] stands for [ValueError]. *)
Definition float (s : string) : option spec_float :=
  let l := to_ascii (Py.chars s) in
  l' ← (if existsb (fun c => Ascii.eqb c "_") l
        then drop_underscores "000"%char l else Some l);
  let '(sg, body) := take_sign (c_strip l') in
  match inf_or_nan sg body with
  | Some x => Some x
  | None => decimal sg body
  end.

(** The longest digit text [int] converts, [sys.int_info]'s default. *)
Definition int_max_str_digits : nat := 4300.

(** The digits of an integer text, underscores dropped: a digit first, one
    underscore at most between two digits, none at the end.  Returns the
    digits and the rest of the text. *)
Fixpoint int_digits (prev : ascii) (l : list ascii)
  : option (list ascii * list ascii) :=
  match l with
  | c :: l' =>
      if Py.isdigit c
      then '(ds, r) ← int_digits c l'; Some (c :: ds, r)
      else if Ascii.eqb c "_"
      then if Ascii.eqb prev "_" then None else int_digits c l'
      else if Ascii.eqb prev "_" then None else Some ([], l)
  | [] => if Ascii.eqb prev "_" then None else Some ([], [])
  end.

(** [int(s)] for a string [s], base ten; [None] stands for [ValueError]. *)
Definition int (s : string) : option Z :=
  let '(sg, body) := take_sign (c_lstrip (to_ascii (Py.chars s))) in
  match body with
  | "_"%char :: _ => None
  | _ =>
      '(ds, r) ← int_digits "000"%char body;
      match ds, c_lstrip r with
      | _ :: _, [] =>
          if (int_max_str_digits <? length ds)%nat then None
          else Some (if sg then - digits_val ds else digits_val ds)
      | _, _ => None
      end
  end.

End Num.

(** ** The record types *)

(** One raw row of the screener, [response.json()['data']['rows'][i]]:
    a dictionary whose values are strings. *)
Abbreviation Row := (gmap string string).

(** [row.get(key)] and [row.get(key, '')] *)
Definition get (row : Row) (key : string) : option string := row !! key.
Definition get_or_empty (row : Row) (key : string) : string :=
  default "" (row !! key).

(** The dictionary [fetch_tickers] builds for one row, which is also one
    line of the data frame of [save_files]. *)
Record Ticker := mkTicker {
  symbol : string;
  name : string;
  price : option spec_float;
  marketCap : option spec_float;
  volume : option Z;
  industry : string
}.

#[global] Instance spec_float_eq_dec : EqDecision spec_float.
Proof. solve_decision. Defined.

#[global] Instance Ticker_eq_dec : EqDecision Ticker.
Proof. solve_decision. Defined.

(** ** The field parsers *)

(** [multipliers], in the order of the dictionary literal; the factors are
    the float literals [1e12], [1e9], [1e6] and [1e3]. *)
Definition multipliers : list (ascii * spec_float) :=
  [ ("T"%char, Num.of_decimal false 1 12);
    ("B"%char, Num.of_decimal false 1 9);
    ("M"%char, Num.of_decimal false 1 6);
    ("K"%char, Num.of_decimal false 1 3) ].

(** The [for suffix, mult in multipliers.items()] loop of
    [parse_market_cap] and the [float(s)] after it; a [ValueError] raised by
    [float] leaves through the [except] clause as [None]. *)
Fixpoint market_cap_loop (items : list (ascii * spec_float)) (s : string)
  : option spec_float :=
  match items with
  | (suffix, mult) :: rest =>
      if Py.endswith s suffix
      then x ← Num.float (Py.drop_last s); Some (Num.fmul x mult)
      else market_cap_loop rest s
  | [] => Num.float s
  end.

Definition parse_market_cap (s : string) : option spec_float :=
  if negb (Py.truthy s) || String.eqb s "N/A" then None
  else
    let s := Py.strip (Py.remove_char "," (Py.remove_char "$" s)) in
    market_cap_loop multipliers s.

Definition parse_number (s : string) : option spec_float :=
  if negb (Py.truthy s) || String.eqb s "N/A" then None
  else Num.float (Py.strip (Py.remove_char "," (Py.remove_char "$" s))).

Definition parse_int (s : string) : option Z :=
  if negb (Py.truthy s) || String.eqb s "N/A" then None
  else Num.int (Py.strip (Py.remove_char "," s)).

(** ** [fetch_tickers] *)

(** The local variables of the row loop. *)
Record LoopState := mkLoop {
  tickers : list Ticker;
  seen_symbols : gset string;
  non_us_count : nat;
  duplicate_count : nat
}.

Definition loop_init : LoopState := mkLoop [] ∅ 0 0.

Definition make_ticker (sym : string) (row : Row) : Ticker :=
  {| symbol := sym;
     name := get_or_empty row "name";
     price := parse_number (get_or_empty row "lastsale");
     marketCap := parse_market_cap (get_or_empty row "marketCap");
     volume := parse_int (get_or_empty row "volume");
     industry := get_or_empty row "sector" |}.

(** The trimmed symbol of a row, [row.get('symbol', '').strip()]. *)
Definition row_symbol (row : Row) : string :=
  Py.strip (get_or_empty row "symbol").

(** [row.get('country') != 'United States'] *)
Definition non_us (row : Row) : bool :=
  negb (bool_decide (get row "country" = Some "United States")).

(** One turn of [for row in rows]. *)
Definition loop_body (st : LoopState) (row : Row) : LoopState :=
  if non_us row
  then mkLoop (tickers st) (seen_symbols st)
              (S (non_us_count st)) (duplicate_count st)
  else
    let sym := row_symbol row in
    if negb (Py.truthy sym) || bool_decide (sym ∈ seen_symbols st)
    then mkLoop (tickers st) (seen_symbols st)
                (non_us_count st) (S (duplicate_count st))
    else mkLoop (tickers st ++ [make_ticker sym row])
                ({[ sym ]} ∪ seen_symbols st)
                (non_us_count st) (duplicate_count st).

Definition row_loop (rows : list Row) : LoopState :=
  foldl loop_body loop_init rows.

(** [fetch_tickers], from the decoded row list on.  The argument is what
    [response.json().get('data', {}).get('rows', [])] evaluates to, [None]
    when the request or the decoding raises. *)
Definition fetch_tickers (response : option (list Row)) : list Ticker :=
  match response with
  | None => []
  | Some [] => []
  | Some rows => tickers (row_loop rows)
  end.

(** ** The data frame operations *)

(** [pandas.isna] on a cell of the [marketCap] column: [None] and the
    float NaN are both missing values. *)
Definition isna (x : option spec_float) : bool :=
  match x with
  | None | Some S754_nan => true
  | Some _ => false
  end.

(** [cap_geb a b]: row [a] may stand before row [b] in the column sorted in
    descending order with the missing values last. *)
Definition cap_geb (a b : Ticker) : bool :=
  isna (marketCap b)
  || match marketCap a, marketCap b with
     | Some x, Some y => SFleb y x
     | _, _ => false
     end.

Definition cap_ge (a b : Ticker) : Prop := cap_geb a b = true.

(** [df.sort_values('marketCap', ascending=False)].  The source passes no
    [kind] and no [na_position], so the sort is pandas' default one:
    [kind='quicksort'], which the library does not give as stable, and
    [na_position='last'].  What the library promises of it is that the rows
    are rearranged into descending order of the column with the missing
    values last.  The development is parametric in any function with these
    properties; [stable_sort_values] below is one. *)
Class SortValues := {
  sort_values : list Ticker -> list Ticker;
  sort_values_perm : forall l, sort_values l ≡ₚ l;
  sort_values_sorted : forall l, StronglySorted cap_ge (sort_values l)
}.

(** [Series.unique()]: the distinct values in order of first appearance. *)
Fixpoint unique (l : list string) : list string :=
  match l with
  | [] => []
  | x :: l' => x :: List.filter (fun y => negb (String.eqb y x)) (unique l')
  end.

(** [df[df['industry'] == ind]] *)
Definition select_industry (ind : string) (df : list Ticker) : list Ticker :=
  List.filter (fun t => String.eqb (industry t) ind) df.

(** [re.sub(r'[^\w\s-]', '', s)] *)
Definition re_sub_unsafe (s : string) : string :=
  Py.str (List.filter
            (fun c => Py.isword c || Py.isspace c || Ascii.eqb c "-")
            (Py.chars s)).

(** [re.sub(r'\s+', '_', s)]: every maximal run of white space becomes one
    underscore.  [in_run] tells that the previous character was white. *)
Fixpoint collapse_ws (in_run : bool) (l : list ascii) : list ascii :=
  match l with
  | [] => []
  | c :: l' =>
      if Py.isspace c
      then if in_run then collapse_ws true l'
           else "_"%char :: collapse_ws true l'
      else c :: collapse_ws false l'
  end.

Definition re_sub_spaces (s : string) : string :=
  Py.str (collapse_ws false (Py.chars s)).

(** The two [re.sub] lines that compute [safe_name]. *)
Definition safe_name (ind : string) : string :=
  let safe := re_sub_unsafe (Py.lower ind) in
  re_sub_spaces (Py.strip safe).

(** ** File system effects *)

Inductive Effect :=
  | MakeDirs (path : string)
  | ToCsv (path : string) (rows : list Ticker).

#[global] Instance Effect_eq_dec : EqDecision Effect.
Proof. solve_decision. Defined.

(** A computation that returns a value and leaves a trace of effects. *)
Definition IO (A : Type) : Type := A * list Effect.

Definition io_ret {A} (a : A) : IO A := (a, []).
Definition io_bind {A B} (m : IO A) (k : A -> IO B) : IO B :=
  let '(a, tr1) := m in
  let '(b, tr2) := k a in
  (b, tr1 ++ tr2).

#[global] Instance IO_ret : MRet IO := @io_ret.
#[global] Instance IO_bind : MBind IO := fun A B k m => io_bind m k.

Definition makedirs (path : string) : IO unit := (tt, [MakeDirs path]).
Definition to_csv (path : string) (rows : list Ticker) : IO unit :=
  (tt, [ToCsv path rows]).

(** [for x in xs: body x] *)
Fixpoint for_each {A} (xs : list A) (body : A -> IO unit) : IO unit :=
  match xs with
  | [] => io_ret tt
  | x :: xs' => body x ;; for_each xs' body
  end.

(** ** [save_files] *)

(** [industries] as the loop sees it: the distinct values of the column,
    those kept that are true and stay true when stripped, sorted. *)
Definition industries_of (df : list Ticker) : list string :=
  Py.sorted
    (List.filter (fun i => Py.truthy i && Py.truthy (Py.strip i))
                 (unique (industry <$> df))).

Definition top_path (n : nat) : string :=
  "tickers/top_" +:+ pretty n +:+ ".csv".

Definition industry_path (ind : string) : string :=
  "by_industry/" +:+ safe_name ind +:+ ".csv".

(** The body of [for industry in sorted(industries)]. *)
Definition save_industry (df : list Ticker) (ind : string) : IO unit :=
  let industry_df := select_industry ind df in
  if (length industry_df =? 0)%nat then io_ret tt
  else to_csv (industry_path ind) industry_df.

Definition save_files `{SortValues} (tickers : list Ticker) : IO bool :=
  match tickers with
  | [] => io_ret false
  | _ =>
      let df := sort_values tickers in
      makedirs "tickers" ;;
      makedirs "by_industry" ;;
      to_csv "tickers/all.csv" df ;;
      for_each [50; 100; 200]%nat
        (fun n => to_csv (top_path n) (take n df)) ;;
      for_each (industries_of df) (save_industry df) ;;
      io_ret true
  end.

(** The state of the two output directories: which directories exist and
    what each file holds. *)
Record FileSystem := mkFS {
  dirs : gset string;
  files : gmap string (list Ticker)
}.

Definition run_effect (fs : FileSystem) (e : Effect) : FileSystem :=
  match e with
  | MakeDirs d => mkFS ({[ d ]} ∪ dirs fs) (files fs)
  | ToCsv p rows => mkFS (dirs fs) (<[ p := rows ]> (files fs))
  end.

Definition run_trace (tr : list Effect) (fs : FileSystem) : FileSystem :=
  foldl run_effect fs tr.

(** The paths written by a trace, in order. *)
Definition written (tr : list Effect) : list (string * list Ticker) :=
  omap (fun e => match e with
                 | ToCsv p rows => Some (p, rows)
                 | MakeDirs _ => None
                 end) tr.

(** ** The script *)

(** The [__main__] block, from the response of the screener on: the exit
    status of the process, [0] when the script runs to its end and [1]
    where it calls [exit(1)], and the trace it leaves. *)
Definition main `{SortValues} (response : option (list Row)) : IO Z :=
  let tickers := fetch_tickers response in
  match tickers with
  | [] => io_ret 1
  | _ =>
      ok ← save_files tickers;
      if ok : bool then io_ret 0 else io_ret 1
  end.

(** * The vocabulary of the properties *)

(** ** The parsers *)

(** The text a parser hands to [float]: ['$'] and [','] removed, then
    stripped. *)
Definition cleaned (s : string) : string :=
  Py.strip (Py.remove_char "," (Py.remove_char "$" s)).

(** [x * k] for an integer factor [k] and a parse result [x]. *)
Definition scaled (k : Z) (x : option spec_float) : option spec_float :=
  (fun v => Num.fmul v (Num.of_Z k)) <$> x.

(** [parse_int] as it would be if it removed ['$'] as the other two parsers
    do: the text handed to [int] is the one handed to [float]. *)
Definition parse_int_removing_dollar (s : string) : option Z :=
  if negb (Py.truthy s) || String.eqb s "N/A" then None
  else Num.int (cleaned s).

(** The characters ['$'] and ['?'] are junk to [int]: neither digit,
    underscore, sign nor blank. *)
Definition junk (c : ascii) : Prop := c = "$"%char \/ c = "?"%char.

(** ** The row loop *)

(** The records the loop appends while it reads [rows], the symbols in
    [seen] being taken already. *)
Fixpoint appended (seen : gset string) (rows : list Row) : list Ticker :=
  match rows with
  | [] => []
  | row :: rest =>
      if non_us row then appended seen rest
      else
        let sym := row_symbol row in
        if negb (Py.truthy sym) || bool_decide (sym ∈ seen)
        then appended seen rest
        else make_ticker sym row :: appended ({[ sym ]} ∪ seen) rest
  end.

(** ** The order of the [marketCap] column *)

(** A float that is not NaN, as a point of the lexicographic order on
    triples that [SFcompare] follows. *)
Definition float_rank (x : spec_float) : Z * Z * Z :=
  match x with
  | S754_infinity true => (-2, 0, 0)
  | S754_finite true m e => (-1, - e, - Zpos m)
  | S754_zero _ | S754_nan => (0, 0, 0)
  | S754_finite false m e => (1, e, Zpos m)
  | S754_infinity false => (2, 0, 0)
  end.

Definition lex_le (a b : Z * Z * Z) : Prop :=
  a.1.1 < b.1.1 \/
  (a.1.1 = b.1.1 /\ (a.1.2 < b.1.2 \/ (a.1.2 = b.1.2 /\ a.2 <= b.2))).

Definition not_nan (x : spec_float) : Prop := x <> S754_nan.

(** The sort key of a row: the rank of its market capitalisation, [None]
    when that is missing. *)
Definition cap_key (t : Ticker) : option (Z * Z * Z) :=
  match marketCap t with
  | Some x => if isna (Some x) then None else Some (float_rank x)
  | None => None
  end.

Definition key_ge (k1 k2 : option (Z * Z * Z)) : Prop :=
  match k2, k1 with
  | None, _ => True
  | Some r2, Some r1 => lex_le r2 r1
  | Some _, None => False
  end.

(** Two rows tie when each may stand before the other. *)
Definition cap_tie (a b : Ticker) : Prop := cap_ge a b /\ cap_ge b a.

(** The rows with a missing market capitalisation stand after all the
    others. *)
Definition missing_last (rows : list Ticker) : Prop :=
  forall i j a b,
    rows !! i = Some a -> rows !! j = Some b ->
    isna (marketCap a) = true -> isna (marketCap b) = false ->
    (j < i)%nat.

(** A stable sort into descending order with the missing values last:
    insertion from the right, a row going behind the rows already placed
    that it may not stand before, and so before those it ties with. *)
Fixpoint insert_desc (x : Ticker) (l : list Ticker) : list Ticker :=
  match l with
  | [] => [x]
  | y :: l' => if cap_geb x y then x :: l else y :: insert_desc x l'
  end.

Definition stable_sort (l : list Ticker) : list Ticker :=
  foldr insert_desc [] l.

(** ** The writer *)

(** An industry is blank when nothing is left of it once stripped. *)
Definition blank (ind : string) : Prop := Py.strip ind = "".

(** An industry of the input that is not blank once stripped: one for which
    the industry loop writes a file. *)
Definition listed_industry (tickers : list Ticker) (ind : string) : Prop :=
  Py.strip ind <> "" /\ exists t, t ∈ tickers /\ industry t = ind.

(** What [save_files] writes before the industry loop, in order. *)
Definition list_writes (df : list Ticker) : list (string * list Ticker) :=
  [ ("tickers/all.csv", df);
    ("tickers/top_50.csv", take 50 df);
    ("tickers/top_100.csv", take 100 df);
    ("tickers/top_200.csv", take 200 df) ].

(** What the industry loop writes, in order. *)
Definition industry_writes (df : list Ticker)
  : list (string * list Ticker) :=
  (fun ind => (industry_path ind, select_industry ind df))
    <$> industries_of df.

(** The files after a sequence of writes: a later write to a path replaces
    an earlier one. *)
Definition write_all (ws : list (string * list Ticker))
    (m : gmap string (list Ticker)) : gmap string (list Ticker) :=
  foldl (fun m w => <[ w.1 := w.2 ]> m) m ws.

(** ** Data for the examples *)

(** A Canadian listing of a symbol, the first listing of that symbol in the
    United States, a later one, and a row without a [country] key. *)
Definition row_ca : Row :=
  {[ "country" := "Canada"; "symbol" := "ACME"; "name" := "Acme North" ]}.
Definition row_us1 : Row :=
  {[ "country" := "United States"; "symbol" := " ACME ";
     "name" := "Acme Corp"; "lastsale" := "$12.34";
     "marketCap" := "$1.2T"; "volume" := "1,234,567";
     "sector" := "Industrials" ]}.
Definition row_us2 : Row :=
  {[ "country" := "United States"; "symbol" := "ACME";
     "name" := "Acme Corp (duplicate)"; "sector" := "Finance" ]}.
Definition row_nowhere : Row :=
  {[ "symbol" := "VOID"; "name" := "No Country Inc" ]}.

(** Four records: two whose market capitalisations are equal and whose
    industries share a file name, and one without a market capitalisation
    and with a blank industry. *)
Definition t_big : Ticker :=
  mkTicker "BIG" "Big Co" (parse_number "$12.34") (parse_market_cap "$1.2T")
           (parse_int "1,234,567") "Consumer Discretionary".
Definition t_mid : Ticker :=
  mkTicker "MID" "Mid Co" None (parse_market_cap "$500M") None "Tech".
Definition t_dot : Ticker :=
  mkTicker "DOT" "Dot Co" None (parse_market_cap "$500M") None "Tech.".
Definition t_none : Ticker :=
  mkTicker "NIL" "Nil Co" None (parse_market_cap "N/A") None "  ".

(** A record whose industry differs from that of [t_big] in case only. *)
Definition t_low : Ticker :=
  mkTicker "LOW" "Low Co" None (parse_market_cap "$500M") None
           "consumer discretionary".

Definition fs_empty : FileSystem := mkFS ∅ ∅.

(** * Properties *)

(** ** The order of the [marketCap] column *)

Lemma SFleb_rank x y :
  not_nan x -> not_nan y ->
  SFleb x y = true <-> lex_le (float_rank x) (float_rank y).
Proof.
  unfold not_nan, SFleb, lex_le.
  destruct x as [sx|sx| |sx mx ex], y as [sy|sy| |sy my ey];
    try congruence; intros _ _;
    repeat match goal with s : bool |- _ => destruct s end;
    cbn -[Z.compare Pos.compare_cont];
    try (split; [intros _; lia | done]);
    try (split; [done | lia]).
  - change (Pos.compare_cont Eq mx my) with (mx ?= my)%positive.
    destruct (Z.compare_spec ex ey), (Pos.compare_spec mx my);
      simpl; split; intros; (done || lia).
  - change (Pos.compare_cont Eq mx my) with (mx ?= my)%positive.
    destruct (Z.compare_spec ex ey), (Pos.compare_spec mx my);
      simpl; split; intros; (done || lia).
Qed.

Lemma lex_le_refl a : lex_le a a.
Proof. unfold lex_le. lia. Qed.

Lemma lex_le_trans a b c : lex_le a b -> lex_le b c -> lex_le a c.
Proof. unfold lex_le. lia. Qed.

Lemma lex_le_total a b : lex_le a b \/ lex_le b a.
Proof. unfold lex_le. lia. Qed.

Lemma isna_false_not_nan x :
  isna (Some x) = false -> not_nan x.
Proof. intros H ->. done. Qed.

(** What [cap_ge] says, cell by cell. *)
Lemma cap_ge_spec a b :
  cap_ge a b <->
  isna (marketCap b) = true \/
  exists x y, marketCap a = Some x /\ marketCap b = Some y /\
              isna (Some x) = false /\ isna (Some y) = false /\
              lex_le (float_rank y) (float_rank x).
Proof.
  unfold cap_ge, cap_geb. rewrite orb_true_iff.
  split.
  - intros [Hb|H]; [by left|].
    destruct (isna (marketCap b)) eqn:Hb; [by left|right].
    destruct (marketCap a) as [x|] eqn:Ha; [|done].
    destruct (marketCap b) as [y|] eqn:Hy; [|done].
    assert (isna (Some x) = false) as Hx.
    { destruct x; try done. by destruct y. }
    exists x, y. repeat split; try done.
    apply SFleb_rank; auto using isna_false_not_nan.
  - intros [Hb|(x & y & -> & -> & Hx & Hy & Hle)]; [by left|right].
    apply SFleb_rank; auto using isna_false_not_nan.
Qed.

Lemma cap_ge_refl a : cap_ge a a.
Proof.
  apply cap_ge_spec. destruct (isna (marketCap a)) eqn:Ha; [by left|right].
  destruct (marketCap a) as [x|]; [|done].
  exists x, x. repeat split; auto using lex_le_refl.
Qed.

Lemma cap_ge_trans a b c : cap_ge a b -> cap_ge b c -> cap_ge a c.
Proof.
  rewrite !cap_ge_spec.
  intros [Hb|(x & y & Ha & Hb & Hx & Hy & Hxy)]
         [Hc|(y' & z & Hb' & Hc & Hy' & Hz & Hyz)]; try by left.
  - rewrite Hb' in Hb. congruence.
  - right. rewrite Hb in Hb'. injection Hb' as <-.
    exists x, z. repeat split; eauto using lex_le_trans.
Qed.

Lemma cap_ge_total a b : cap_ge a b \/ cap_ge b a.
Proof.
  rewrite !cap_ge_spec.
  destruct (isna (marketCap b)) eqn:Hb; [by left; left|].
  destruct (isna (marketCap a)) eqn:Ha; [by right; left|].
  destruct (marketCap a) as [x|] eqn:Ea; [|done].
  destruct (marketCap b) as [y|] eqn:Eb; [|done].
  destruct (lex_le_total (float_rank y) (float_rank x)).
  - left; right. exists x, y. by repeat split.
  - right; right. exists y, x. by repeat split.
Qed.

(** ** Two sorts that meet the contract *)

Lemma insert_desc_perm x l : insert_desc x l ≡ₚ x :: l.
Proof.
  induction l as [|y l IH]; simpl; [done|].
  destruct (cap_geb x y); [done|]. rewrite IH. apply Permutation_swap.
Qed.

Lemma stable_sort_perm l : stable_sort l ≡ₚ l.
Proof.
  induction l as [|x l IH]; simpl; [done|].
  by rewrite insert_desc_perm, IH.
Qed.

Lemma insert_desc_sorted x l :
  StronglySorted cap_ge l -> StronglySorted cap_ge (insert_desc x l).
Proof.
  induction 1 as [|y l Hl IH Hy]; simpl.
  - repeat constructor.
  - destruct (cap_geb x y) eqn:Hxy.
    + constructor; [by constructor|].
      constructor; [done|].
      eapply Forall_impl; [exact Hy|]. intros z Hz.
      by apply cap_ge_trans with y.
    + constructor; [done|].
      rewrite insert_desc_perm. constructor; [|done].
      destruct (cap_ge_total x y) as [H|H]; [|done].
      unfold cap_ge in H. congruence.
Qed.

Lemma stable_sort_sorted l : StronglySorted cap_ge (stable_sort l).
Proof.
  induction l; simpl; [constructor|by apply insert_desc_sorted].
Qed.

(** Sorting with a stable algorithm, as [kind='stable'] would. *)
Definition stable_sort_values : SortValues :=
  {| sort_values := stable_sort;
     sort_values_perm := stable_sort_perm;
     sort_values_sorted := stable_sort_sorted |}.

(** A sort that meets the same contract and returns ties in the reverse of
    their input order. *)
Definition reversing_sort_values : SortValues :=
  {| sort_values := fun l => stable_sort (reverse l);
     sort_values_perm := fun l =>
       transitivity (stable_sort_perm (reverse l)) (reverse_Permutation l);
     sort_values_sorted := fun l => stable_sort_sorted (reverse l) |}.

(** ** Strings: characters, suffixes *)

Lemma chars_str l : Py.chars (Py.str l) = l.
Proof. apply list_ascii_of_string_of_list_ascii. Qed.

Lemma str_chars s : Py.str (Py.chars s) = s.
Proof. apply string_of_list_ascii_of_string. Qed.

Lemma chars_app s1 s2 : Py.chars (s1 +:+ s2) = Py.chars s1 ++ Py.chars s2.
Proof.
  unfold Py.chars. induction s1 as [|c s1 IH]; simpl; [done|].
  by rewrite IH.
Qed.

Lemma chars_inj s1 s2 : Py.chars s1 = Py.chars s2 -> s1 = s2.
Proof. intros H. by rewrite <-(str_chars s1), H, str_chars. Qed.

Lemma endswith_snoc p c d :
  Py.endswith (p +:+ String c "") d = Ascii.eqb c d.
Proof.
  unfold Py.endswith. rewrite chars_app. simpl.
  by rewrite rev_app_distr.
Qed.

Lemma drop_last_snoc p c : Py.drop_last (p +:+ String c "") = p.
Proof.
  unfold Py.drop_last. rewrite chars_app. simpl.
  by rewrite removelast_last, str_chars.
Qed.

Lemma endswith_true s c :
  Py.endswith s c = true -> exists p, s = p +:+ String c "".
Proof.
  unfold Py.endswith. intros H.
  destruct (rev (Py.chars s)) as [|x l] eqn:E; [done|].
  apply Ascii.eqb_eq in H as ->.
  exists (Py.str (rev l)). apply chars_inj.
  rewrite chars_app, chars_str. simpl.
  rewrite <-(rev_involutive (Py.chars s)), E. done.
Qed.

Lemma truthy_true s : s <> "" -> Py.truthy s = true.
Proof. intros H. unfold Py.truthy. by apply negb_true_iff, String.eqb_neq. Qed.

(** ** The field parsers *)

Lemma parse_market_cap_sentinel s :
  s = "" \/ s = "N/A" -> parse_market_cap s = None.
Proof. by intros [-> | ->]. Qed.

Lemma parse_market_cap_cleaned s :
  s <> "" -> s <> "N/A" ->
  parse_market_cap s = market_cap_loop multipliers (cleaned s).
Proof.
  intros H1 H2. unfold parse_market_cap.
  rewrite (truthy_true s H1). apply String.eqb_neq in H2. by rewrite H2.
Qed.

Lemma multipliers_values :
  multipliers =
    [ ("T"%char, Num.of_Z (10 ^ 12)); ("B"%char, Num.of_Z (10 ^ 9));
      ("M"%char, Num.of_Z (10 ^ 6)); ("K"%char, Num.of_Z (10 ^ 3)) ].
Proof. by vm_compute. Qed.

Lemma market_cap_loop_suffix p c k :
  (c, k) ∈ [ ("T"%char, 10 ^ 12); ("B"%char, 10 ^ 9);
             ("M"%char, 10 ^ 6); ("K"%char, 10 ^ 3) ] ->
  market_cap_loop multipliers (p +:+ String c "") = scaled k (Num.float p).
Proof.
  rewrite multipliers_values. unfold scaled. intros H.
  repeat (apply elem_of_cons in H as [[= -> ->]|H];
          [simpl; rewrite !endswith_snoc, drop_last_snoc; simpl;
           by destruct (Num.float p)|]).
  by apply elem_of_nil in H.
Qed.

Lemma market_cap_loop_plain c :
  (forall p x, c = p +:+ String x "" ->
      x ∉ ["T"%char; "B"%char; "M"%char; "K"%char]) ->
  market_cap_loop multipliers c = Num.float c.
Proof.
  intros H. unfold multipliers, market_cap_loop.
  repeat match goal with
  | |- context [Py.endswith c ?x] =>
      destruct (Py.endswith c x) eqn:?;
      [match goal with E : Py.endswith _ _ = true |- _ =>
         apply endswith_true in E as [p E]; apply H in E;
         exfalso; apply E; set_solver end|]
  end.
  done.
Qed.

(** C4.  [parse_market_cap] returns [None] on the empty string and on
    ["N/A"].  On any other input let [c] be the input with ['$'] and [',']
    removed and then stripped: if [c] is [p] followed by [T], [B], [M] or
    [K] the result is [float(p)] times 1e12, 1e9, 1e6, 1e3, and [None] when
    [float(p)] fails; if [c] ends with none of the four letters the result
    is [float(c)], [None] when that fails.  In particular ["$1.2T"] gives
    1.2e12, ["$500M"] gives 5e8, and ["N/A"] and [""] give [None]. *)
Theorem C4_parse_market_cap :
  (forall s, s = "" \/ s = "N/A" -> parse_market_cap s = None) /\
  (forall s p c k, s <> "" -> s <> "N/A" ->
     (c, k) ∈ [ ("T"%char, 10 ^ 12); ("B"%char, 10 ^ 9);
                ("M"%char, 10 ^ 6); ("K"%char, 10 ^ 3) ] ->
     cleaned s = p +:+ String c "" ->
     parse_market_cap s = scaled k (Num.float p)) /\
  (forall s, s <> "" -> s <> "N/A" ->
     (forall p x, cleaned s = p +:+ String x "" ->
        x ∉ ["T"%char; "B"%char; "M"%char; "K"%char]) ->
     parse_market_cap s = Num.float (cleaned s)) /\
  parse_market_cap "$1.2T" = Num.float "1.2e12" /\
  parse_market_cap "$1.2T" = Some (Num.of_Z 1200000000000) /\
  parse_market_cap "$500M" = Num.float "5e8" /\
  parse_market_cap "$500M" = Some (Num.of_Z 500000000) /\
  parse_market_cap "N/A" = None /\
  parse_market_cap "" = None.
Proof.
  split; [exact parse_market_cap_sentinel|].
  split.
  { intros s p c k H1 H2 Hk Hc.
    rewrite parse_market_cap_cleaned, Hc by done.
    by apply market_cap_loop_suffix. }
  split.
  { intros s H1 H2 Hc. rewrite parse_market_cap_cleaned by done.
    by apply market_cap_loop_plain. }
  repeat split; by vm_compute.
Qed.

Lemma C4_parse_market_cap_witness :
  parse_market_cap "$3,500.5B " = scaled (10 ^ 9) (Num.float "3500.5") /\
  parse_market_cap " 1,234.00" = Num.float "1234.00".
Proof.
  destruct C4_parse_market_cap as (_ & Hsuffix & Hplain & _).
  split.
  - apply (Hsuffix "$3,500.5B " "3500.5" "B"%char (10 ^ 9));
      [done | done | by apply (bool_decide_unpack _) | by vm_compute].
  - apply (Hplain " 1,234.00"); [done | done |].
    intros p x. change (cleaned " 1,234.00") with "1234.00".
    intros E. apply (f_equal Py.chars) in E. rewrite chars_app in E.
    simpl in E.
    assert (x = "0"%char) as ->; [|by apply (bool_decide_unpack _)].
    apply (f_equal (@rev ascii)) in E. rewrite rev_app_distr in E.
    simpl in E. congruence.
Defined.

Lemma remove_char_absent c s :
  c ∉ Py.chars s -> Py.remove_char c s = s.
Proof.
  intros H. unfold Py.remove_char.
  rewrite <-(str_chars s) at 2. f_equal.
  induction (Py.chars s) as [|x l IH]; simpl; [done|].
  apply not_elem_of_cons in H as [Hx Hl].
  destruct (Ascii.eqb x c) eqn:E.
  - apply Ascii.eqb_eq in E. congruence.
  - simpl. by rewrite IH.
Qed.

Lemma lstrip_chars_keeps l c :
  c ∈ l -> Py.isspace c = false -> c ∈ Py.lstrip_chars l.
Proof.
  induction l as [|x l IH]; simpl; [done|]. intros Hc Hs.
  destruct (Py.isspace x) eqn:Hx; [|done].
  apply elem_of_cons in Hc as [->|Hc]; [congruence|by apply IH].
Qed.

Lemma elem_of_rev {A} (l : list A) (x : A) : x ∈ rev l <-> x ∈ l.
Proof. by rewrite !list_elem_of_In, <-in_rev. Qed.

Lemma strip_chars_keeps l c :
  c ∈ l -> Py.isspace c = false -> c ∈ Py.strip_chars l.
Proof.
  intros Hc Hs. unfold Py.strip_chars.
  apply elem_of_rev, lstrip_chars_keeps; [|done].
  apply elem_of_rev. by apply lstrip_chars_keeps.
Qed.

Lemma c_lstrip_keeps l c :
  c ∈ l -> Num.c_isspace c = false -> c ∈ Num.c_lstrip l.
Proof.
  induction l as [|x l IH]; simpl; [done|]. intros Hc Hs.
  destruct (Num.c_isspace x) eqn:Hx; [|done].
  apply elem_of_cons in Hc as [->|Hc]; [congruence|by apply IH].
Qed.

Lemma to_ascii_junk l :
  "$"%char ∈ l -> exists c, c ∈ Num.to_ascii l /\ junk c.
Proof.
  intros Hl. unfold Num.to_ascii.
  destruct (forallb _ l); [exists "$"%char; split; [done|by left]|].
  induction l as [|x l IH]; simpl; [by apply elem_of_nil in Hl|].
  apply elem_of_cons in Hl as [<-|Hl].
  { exists "$"%char. split; [by left|by left]. }
  destruct (IH Hl) as (c & Hc & Hj).
  destruct (Py.ord x <? 127)%N; [exists c; split; [by right|done]|].
  destruct (Py.isspace x); [exists c; split; [by right|done]|].
  exists "?"%char. split; [by left|by right].
Qed.

Lemma int_digits_junk prev l ds r c :
  Num.int_digits prev l = Some (ds, r) -> c ∈ l -> junk c -> c ∈ r.
Proof.
  intros E Hc Hj. revert prev ds r E.
  induction l as [|x l IH]; intros prev ds r E; [by apply elem_of_nil in Hc|].
  simpl in E.
  destruct (Py.isdigit x) eqn:Hd.
  { destruct (Num.int_digits x l) as [[ds' r']|] eqn:E'; [|done].
    simpl in E. injection E as <- <-.
    apply elem_of_cons in Hc as [->|Hc]; [by destruct Hj as [-> | ->]|].
    by eapply IH. }
  destruct (Ascii.eqb x "_") eqn:Hu.
  { destruct (Ascii.eqb prev "_"); [done|].
    apply elem_of_cons in Hc as [->|Hc]; [by destruct Hj as [-> | ->]|].
    by eapply IH. }
  destruct (Ascii.eqb prev "_"); [done|]. by injection E as <- <-.
Qed.

Lemma int_junk s : "$"%char ∈ Py.chars s -> Num.int s = None.
Proof.
  intros (c & Hc & Hj)%to_ascii_junk.
  assert (Num.c_isspace c = false) as Hs by by destruct Hj as [-> | ->].
  apply c_lstrip_keeps in Hc; [|done].
  unfold Num.int.
  destruct (Num.take_sign _) as [sg body] eqn:Hsign.
  assert (c ∈ body) as Hbody.
  { unfold Num.take_sign in Hsign.
    destruct (Num.c_lstrip _) as [|x l]; [by apply elem_of_nil in Hc|].
    assert (x = "-"%char \/ x = "+"%char -> c ∈ l) as Hl.
    { intros Hx. apply elem_of_cons in Hc as [->|Hc]; [|done].
      by destruct Hj as [-> | ->], Hx as [? | ?]. }
    destruct (decide (x = "-"%char)) as [->|?];
      [injection Hsign as <- <-; auto|].
    destruct (decide (x = "+"%char)) as [->|?];
      [injection Hsign as <- <-; auto|].
    assert ((sg, body) = (false, x :: l)) as [= -> ->]; [|done].
    rewrite <-Hsign. clear -n n0.
    destruct x as [[] [] [] [] [] [] [] []]; done. }
  assert (match Num.int_digits "000" body with
          | Some (ds, r) =>
              match ds, Num.c_lstrip r with
              | _ :: _, [] =>
                  if (Num.int_max_str_digits <? length ds)%nat then None
                  else Some (if sg then - Num.digits_val ds
                             else Num.digits_val ds)
              | _, _ => None
              end
          | None => None
          end = None) as Hnone.
  { destruct (Num.int_digits "000" body) as [[ds r]|] eqn:E; [|done].
    eapply int_digits_junk in E; [|done..].
    apply c_lstrip_keeps in E; [|done].
    destruct ds; [done|].
    destruct (Num.c_lstrip r); [by apply elem_of_nil in E|done]. }
  destruct body as [|x l]; [by apply elem_of_nil in Hbody|].
  destruct (Num.int_digits "000" (x :: l)) as [[ds r]|] eqn:E.
  - simpl in *. rewrite Hnone.
    by destruct x as [[] [] [] [] [] [] [] []].
  - simpl. by destruct x as [[] [] [] [] [] [] [] []].
Qed.

Lemma parse_int_dollar s : "$"%char ∈ Py.chars s -> parse_int s = None.
Proof.
  intros Hs. unfold parse_int.
  destruct (negb (Py.truthy s) || String.eqb s "N/A"); [done|].
  apply int_junk. unfold Py.strip, Py.remove_char.
  rewrite !chars_str. apply strip_chars_keeps; [|done].
  apply list_elem_of_In, filter_In. split; [by apply list_elem_of_In|done].
Qed.

(** Against C9 as stated.  [parse_int] leaves a ['$'] in the text: [int]
    then fails, where the parser that removes it would return 5. *)
Lemma C9_parse_int_keeps_dollar :
  parse_int "$5" = None /\ parse_int_removing_dollar "$5" = Some 5.
Proof. split; by vm_compute. Qed.

(** C9, amended.  [parse_number] and [parse_int] return [None] on the empty
    string and on ["N/A"].  On any other input [parse_number] removes ['$']
    and [','], strips, and returns what [float] gives; [parse_int] removes
    [','] only, strips, and returns what [int] gives: on an input with a
    ['$'] it returns [None], on the others it agrees with the parser that
    also removes ['$'].  Both return [None] when the conversion fails.  In
    particular ["$12.34"] parses to 12.34 and ["1,234,567"] to 1234567. *)
Theorem C9_parse_number_parse_int :
  (forall s, s = "" \/ s = "N/A" ->
     parse_number s = None /\ parse_int s = None) /\
  (forall s, s <> "" -> s <> "N/A" ->
     parse_number s = Num.float (cleaned s) /\
     parse_int s = Num.int (Py.strip (Py.remove_char "," s))) /\
  (forall s, "$"%char ∈ Py.chars s -> parse_int s = None) /\
  (forall s, "$"%char ∉ Py.chars s ->
     parse_int s = parse_int_removing_dollar s) /\
  parse_number "$12.34" = Num.float "12.34" /\
  parse_number "$12.34" =
    Some (SFdiv Num.prec Num.emax (Num.of_Z 1234) (Num.of_Z 100)) /\
  parse_int "1,234,567" = Some 1234567.
Proof.
  split.
  { by intros s [-> | ->]. }
  split.
  { intros s H1 H2. unfold parse_number, parse_int.
    rewrite (truthy_true s H1). apply String.eqb_neq in H2.
    by rewrite H2. }
  split; [exact parse_int_dollar|].
  split.
  { intros s H. unfold parse_int, parse_int_removing_dollar, cleaned.
    by rewrite (remove_char_absent "$" s H). }
  repeat split; by vm_compute.
Qed.

Lemma C9_parse_number_parse_int_witness :
  parse_number " $1,000.50" = Num.float "1000.50" /\
  parse_int " 12,000 " = Num.int "12000" /\
  parse_int "$1,000" = None /\
  parse_int "7,5" = parse_int_removing_dollar "7,5".
Proof.
  destruct C9_parse_number_parse_int as (_ & Hparse & Hdollar & Hagree & _).
  split; [|split; [|split]].
  - by apply (Hparse " $1,000.50").
  - by apply (Hparse " 12,000 ").
  - apply (Hdollar "$1,000"). by left.
  - apply (Hagree "7,5"). by apply (bool_decide_unpack _).
Defined.

(** ** [fetch_tickers]: the row loop *)

Lemma truthy_false s : Py.truthy s = false <-> s = "".
Proof.
  unfold Py.truthy. rewrite negb_false_iff. apply String.eqb_eq.
Qed.

Lemma non_us_true row :
  non_us row = true <-> get row "country" <> Some "United States".
Proof.
  unfold non_us. rewrite negb_true_iff, bool_decide_eq_false. done.
Qed.

Lemma non_us_false row :
  non_us row = false <-> get row "country" = Some "United States".
Proof.
  unfold non_us. rewrite negb_false_iff, bool_decide_eq_true. done.
Qed.

Lemma foldl_loop_body st rows :
  tickers (foldl loop_body st rows)
  = tickers st ++ appended (seen_symbols st) rows.
Proof.
  revert st. induction rows as [|row rest IH]; intros st; simpl.
  - by rewrite app_nil_r.
  - rewrite IH. unfold loop_body.
    destruct (non_us row); simpl; [done|].
    destruct (negb (Py.truthy (row_symbol row))
              || bool_decide (row_symbol row ∈ seen_symbols st));
      simpl; [done|].
    by rewrite <-app_assoc.
Qed.

Lemma fetch_tickers_appended rows :
  fetch_tickers (Some rows) = appended ∅ rows.
Proof.
  destruct rows as [|row rest]; [done|].
  unfold fetch_tickers, row_loop. by rewrite foldl_loop_body.
Qed.

(** The guard of the loop, read as a proposition. *)
Lemma skip_symbol_false sym (seen : gset string) :
  negb (Py.truthy sym) || bool_decide (sym ∈ seen) = false <->
  sym <> "" /\ sym ∉ seen.
Proof.
  rewrite orb_false_iff, negb_false_iff, bool_decide_eq_false.
  split; intros [H1 H2]; split; try done.
  - intros ->. done.
  - by apply truthy_true.
Qed.

Lemma appended_sound seen rows t :
  t ∈ appended seen rows ->
  symbol t <> "" /\ (symbol t ∉ seen) /\
  exists row, row ∈ rows /\ non_us row = false /\
              row_symbol row = symbol t /\ t = make_ticker (symbol t) row.
Proof.
  revert seen. induction rows as [|row rest IH]; intros seen; simpl.
  { by intros ?%elem_of_nil. }
  assert (forall seen', t ∈ appended seen' rest -> seen ⊆ seen' ->
     symbol t <> "" /\ (symbol t ∉ seen) /\
     exists row0, row0 ∈ row :: rest /\ non_us row0 = false /\
       row_symbol row0 = symbol t /\ t = make_ticker (symbol t) row0) as Hrest.
  { intros seen' Ht Hsub.
    destruct (IH _ Ht) as (? & ? & r & ? & ? & ? & ?).
    split; [done|]. split; [set_solver|].
    exists r. split; [by right|done]. }
  destruct (non_us row) eqn:Hus; [by intros; apply (Hrest seen)|].
  destruct (negb (Py.truthy (row_symbol row))
            || bool_decide (row_symbol row ∈ seen)) eqn:Hskip;
    [by intros; apply (Hrest seen)|].
  apply skip_symbol_false in Hskip as [Hne Hnew].
  intros [->|Ht]%elem_of_cons.
  - simpl. split; [done|]. split; [done|].
    exists row. split; [by left|done].
  - apply (Hrest _ Ht). set_solver.
Qed.

Lemma appended_NoDup seen rows : NoDup (symbol <$> appended seen rows).
Proof.
  revert seen. induction rows as [|row rest IH]; intros seen; simpl.
  { constructor. }
  destruct (non_us row); [done|].
  destruct (negb (Py.truthy (row_symbol row))
            || bool_decide (row_symbol row ∈ seen)); [done|].
  csimpl. constructor; [|done].
  intros (t & Hsym & Ht)%list_elem_of_fmap.
  apply appended_sound in Ht as (_ & Hnot & _).
  simpl in Hsym. rewrite <-Hsym in Hnot. set_solver.
Qed.

(** A row of another country leaves no trace in what the loop appends. *)
Lemma appended_non_us seen l1 r l2 :
  non_us r = true ->
  appended seen (l1 ++ r :: l2) = appended seen (l1 ++ l2).
Proof.
  intros Hr. revert seen. induction l1 as [|row l1 IH]; intros seen; simpl.
  - by rewrite Hr.
  - by rewrite !IH.
Qed.

(** The first retained row with a given symbol is the one recorded. *)
Lemma appended_first seen l1 r l2 :
  non_us r = false -> row_symbol r <> "" -> row_symbol r ∉ seen ->
  (forall r', r' ∈ l1 -> non_us r' = false -> row_symbol r' <> row_symbol r) ->
  make_ticker (row_symbol r) r ∈ appended seen (l1 ++ r :: l2).
Proof.
  intros Hus Hne. revert seen.
  induction l1 as [|row l1 IH]; intros seen Hnew Hfirst; simpl.
  - rewrite Hus.
    replace (negb (Py.truthy (row_symbol r))
             || bool_decide (row_symbol r ∈ seen))%bool with false
      by (symmetry; by apply skip_symbol_false).
    by left.
  - assert (forall r', r' ∈ l1 -> non_us r' = false ->
              row_symbol r' <> row_symbol r) as Hfirst'.
    { intros r' Hr'. apply Hfirst. by right. }
    destruct (non_us row) eqn:Hrow; [by apply IH|].
    destruct (negb (Py.truthy (row_symbol row))
              || bool_decide (row_symbol row ∈ seen)); [by apply IH|].
    right. apply IH; [|done].
    assert (row_symbol row <> row_symbol r)
      by (apply Hfirst; [by left|done]).
    set_solver.
Qed.

Lemma filter_key_absent {A} (f : A -> string) (l : list A) (k : string) :
  (forall z, z ∈ l -> f z <> k) -> filter (fun y => f y = k) l = [].
Proof.
  induction l as [|z l IH]; intros H; [done|].
  rewrite filter_cons_False by (apply H; by left).
  apply IH. intros z' Hz'. apply H. by right.
Qed.

(** In a list without two equal keys, selecting by the key of a member
    returns that member alone. *)
Lemma filter_key_NoDup {A} (f : A -> string) (l : list A) (x : A) :
  NoDup (f <$> l) -> x ∈ l ->
  filter (fun y => f y = f x) l = [x].
Proof.
  induction l as [|y l IH]; csimpl; intros Hnd Hx.
  { by apply elem_of_nil in Hx. }
  apply NoDup_cons in Hnd as [Hy Hnd].
  assert (forall z, z ∈ l -> f z <> f y) as Hfresh.
  { intros z Hz E. apply Hy. rewrite <-E. by apply list_elem_of_fmap_2. }
  apply elem_of_cons in Hx as [->|Hx].
  - rewrite filter_cons_True by done. f_equal.
    by apply filter_key_absent.
  - rewrite filter_cons_False; [by apply IH|].
    intros E. by eapply Hfresh.
Qed.

(** C3.  In the output of the normaliser the symbols are pairwise distinct
    and none is empty; every record is built from a retained row whose
    trimmed symbol it carries; and for a trimmed symbol that occurs in
    retained rows, however often, the output holds exactly one record with
    that symbol, the one built from the first such row. *)
Theorem C3_symbols_unique_first_wins (rows : list Row) :
  let out := fetch_tickers (Some rows) in
  NoDup (symbol <$> out) /\
  Forall (fun t => symbol t <> "") out /\
  (forall t, t ∈ out ->
     exists row, row ∈ rows /\ get row "country" = Some "United States" /\
                 row_symbol row = symbol t /\
                 t = make_ticker (symbol t) row) /\
  (forall l1 r l2,
     rows = l1 ++ r :: l2 ->
     get r "country" = Some "United States" ->
     row_symbol r <> "" ->
     (forall r', r' ∈ l1 -> get r' "country" = Some "United States" ->
                 row_symbol r' <> row_symbol r) ->
     filter (fun t => symbol t = row_symbol r) out
     = [make_ticker (row_symbol r) r]).
Proof.
  intros out. unfold out. rewrite fetch_tickers_appended.
  split; [apply appended_NoDup|].
  split.
  { apply Forall_forall. intros t Ht.
    by apply appended_sound in Ht as (? & _). }
  split.
  { intros t Ht.
    apply appended_sound in Ht as (_ & _ & row & ? & ?%non_us_false & ? & ?).
    by exists row. }
  intros l1 r l2 -> Hus Hne Hfirst.
  apply (filter_key_NoDup symbol _ (make_ticker (row_symbol r) r));
    [apply appended_NoDup|].
  apply appended_first; [by apply non_us_false|done|set_solver|].
  intros r' Hr' Hus'. apply Hfirst; [done|by apply non_us_false].
Qed.

Lemma C3_symbols_unique_first_wins_witness :
  filter (fun t => symbol t = "ACME")
         (fetch_tickers (Some [row_ca; row_us1; row_us2]))
  = [make_ticker "ACME" row_us1].
Proof.
  destruct (C3_symbols_unique_first_wins [row_ca; row_us1; row_us2])
    as (_ & _ & _ & Hfirst).
  apply (Hfirst [row_ca] row_us1 [row_us2]).
  - reflexivity.
  - by vm_compute.
  - by vm_compute.
  - intros r' Hr' Hus. apply list_elem_of_singleton in Hr' as ->.
    by vm_compute in Hus.
Defined.

(** C7.  A row whose [country] is not ["United States"], the rows without
    the key among them, contributes nothing: the output is the one computed
    without the row, and each of its records is built from a row of the
    United States among the others. *)
Theorem C7_non_us_rows_dropped (l1 l2 : list Row) (r : Row) :
  get r "country" <> Some "United States" ->
  fetch_tickers (Some (l1 ++ r :: l2)) = fetch_tickers (Some (l1 ++ l2)) /\
  forall t, t ∈ fetch_tickers (Some (l1 ++ r :: l2)) ->
    exists row, row ∈ l1 ++ l2 /\
                get row "country" = Some "United States" /\
                t = make_ticker (row_symbol row) row.
Proof.
  intros Hr%non_us_true.
  assert (fetch_tickers (Some (l1 ++ r :: l2))
          = fetch_tickers (Some (l1 ++ l2))) as E.
  { rewrite !fetch_tickers_appended. by apply appended_non_us. }
  split; [done|].
  intros t. rewrite E, fetch_tickers_appended. intros Ht.
  apply appended_sound in Ht as (_ & _ & row & ? & ?%non_us_false & Hs & ?).
  exists row. by rewrite Hs.
Qed.

Lemma C7_non_us_rows_dropped_witness :
  fetch_tickers (Some [row_us1; row_nowhere; row_ca; row_us2])
  = fetch_tickers (Some [row_us1; row_ca; row_us2]) /\
  fetch_tickers (Some [row_us1; row_ca; row_us2])
  = fetch_tickers (Some [row_us1; row_us2]).
Proof.
  split.
  - apply (C7_non_us_rows_dropped [row_us1] [row_ca; row_us2] row_nowhere).
    by vm_compute.
  - apply (C7_non_us_rows_dropped [row_us1] [row_us2] row_ca).
    by vm_compute.
Defined.

(** ** [save_files]: the trace *)

Lemma io_bind_eq {A B} (m : IO A) (k : A -> IO B) :
  io_bind m k = ((k m.1).1, m.2 ++ (k m.1).2).
Proof. destruct m as [a tr]. simpl. by destruct (k a). Qed.

Lemma for_each_eq {A} (xs : list A) (body : A -> IO unit) :
  for_each xs body = (tt, concat ((fun x => (body x).2) <$> xs)).
Proof.
  induction xs as [|x xs IH]; [done|].
  simpl. unfold mbind, IO_bind. rewrite io_bind_eq, IH. simpl.
  by destruct (body x) as [[] ?].
Qed.

Lemma written_app tr1 tr2 : written (tr1 ++ tr2) = written tr1 ++ written tr2.
Proof. apply omap_app. Qed.

(** The industries of the loop are those of the rows, each once, that are
    not blank, in ascending order. *)
Lemma elem_of_unique l x : x ∈ unique l <-> x ∈ l.
Proof.
  induction l as [|y l IH]; simpl; [done|].
  rewrite !elem_of_cons, list_elem_of_In, filter_In, <-list_elem_of_In, IH.
  rewrite negb_true_iff, String.eqb_neq.
  destruct (decide (x = y)); naive_solver.
Qed.

Lemma NoDup_unique l : NoDup (unique l).
Proof.
  induction l as [|y l IH]; simpl; [constructor|].
  constructor.
  - rewrite list_elem_of_In, filter_In, negb_true_iff, String.eqb_neq.
    naive_solver.
  - by apply NoDup_ListNoDup, List.NoDup_filter, NoDup_ListNoDup.
Qed.

Lemma insert_sorted_perm x l : Py.insert_sorted x l ≡ₚ x :: l.
Proof.
  induction l as [|y l IH]; simpl; [done|].
  destruct (String.leb x y); [done|]. rewrite IH. apply Permutation_swap.
Qed.

Lemma sorted_perm l : Py.sorted l ≡ₚ l.
Proof.
  induction l as [|x l IH]; simpl; [done|].
  by rewrite insert_sorted_perm, IH.
Qed.

Lemma insert_sorted_sorted x l :
  StronglySorted String.le l -> StronglySorted String.le (Py.insert_sorted x l).
Proof.
  induction 1 as [|y l Hl IH Hy]; simpl.
  - repeat constructor.
  - destruct (String.leb x y) eqn:Hxy.
    + assert (String.le x y) by (unfold String.le; by rewrite Hxy).
      constructor; [by constructor|].
      constructor; [done|].
      eapply Forall_impl; [exact Hy|]. intros z Hz. by etrans.
    + constructor; [done|].
      rewrite insert_sorted_perm. constructor; [|done].
      destruct (total String.le x y) as [H|H]; [|done].
      unfold String.le in H. by rewrite Hxy in H.
Qed.

Lemma sorted_sorted l : StronglySorted String.le (Py.sorted l).
Proof.
  induction l; simpl; [constructor|by apply insert_sorted_sorted].
Qed.

Lemma keep_industry_true i :
  Py.truthy i && Py.truthy (Py.strip i) = true <-> ~ blank i.
Proof.
  unfold blank. rewrite andb_true_iff. split.
  - intros [_ H] E. rewrite E in H. done.
  - intros H. split; apply truthy_true; [|done].
    intros ->. by apply H.
Qed.

Lemma elem_of_industries_of df i :
  i ∈ industries_of df <->
  ~ blank i /\ exists t, t ∈ df /\ industry t = i.
Proof.
  unfold industries_of.
  rewrite sorted_perm, list_elem_of_In, filter_In, <-list_elem_of_In.
  rewrite elem_of_unique, keep_industry_true, list_elem_of_fmap.
  split.
  - intros [(t & -> & Ht) Hb]. eauto.
  - intros [Hb (t & Ht & <-)]. eauto.
Qed.

Lemma NoDup_industries_of df : NoDup (industries_of df).
Proof.
  unfold industries_of. rewrite sorted_perm.
  apply NoDup_ListNoDup, List.NoDup_filter, NoDup_ListNoDup, NoDup_unique.
Qed.

Lemma sorted_industries_of df : StronglySorted String.le (industries_of df).
Proof. apply sorted_sorted. Qed.

Lemma elem_of_select_industry ind df t :
  t ∈ select_industry ind df <-> t ∈ df /\ industry t = ind.
Proof.
  unfold select_industry.
  by rewrite list_elem_of_In, filter_In, String.eqb_eq, <-list_elem_of_In.
Qed.

Lemma select_industry_sublist ind df : select_industry ind df `sublist_of` df.
Proof.
  unfold select_industry. induction df as [|t df IH]; simpl; [done|].
  destruct (String.eqb (industry t) ind); by constructor.
Qed.

Lemma select_industry_perm ind l1 l2 :
  l1 ≡ₚ l2 -> select_industry ind l1 ≡ₚ select_industry ind l2.
Proof.
  unfold select_industry.
  induction 1 as [|x l l' _ IH|x y l|l l' l'' _ IH1 _ IH2]; simpl.
  - done.
  - destruct (String.eqb (industry x) ind); by rewrite IH.
  - destruct (String.eqb (industry x) ind), (String.eqb (industry y) ind);
      (done || apply Permutation_swap).
  - by etrans.
Qed.

Lemma save_industry_trace df ind :
  ind ∈ industries_of df ->
  (save_industry df ind).2 = [ToCsv (industry_path ind) (select_industry ind df)].
Proof.
  intros (_ & t & Ht & Hi)%elem_of_industries_of.
  unfold save_industry.
  destruct (select_industry ind df) as [|t' l] eqn:E; [|done].
  assert (t ∈ select_industry ind df) as Hin
    by by apply elem_of_select_industry.
  rewrite E in Hin. by apply elem_of_nil in Hin.
Qed.

Lemma industry_loop_written df :
  written (for_each (industries_of df) (save_industry df)).2
  = industry_writes df.
Proof.
  rewrite for_each_eq. simpl. unfold industry_writes.
  assert (Forall (fun i => i ∈ industries_of df) (industries_of df)) as H
    by by apply Forall_forall.
  induction H as [|i l Hi _ IH]; [done|].
  csimpl. rewrite written_app, IH, (save_industry_trace df i Hi). done.
Qed.

Section save_files_trace.
Context `{SortValues}.

Lemma save_files_empty : save_files [] = (false, []).
Proof. done. Qed.

Lemma save_files_result tickers :
  tickers <> [] -> (save_files tickers).1 = true.
Proof.
  destruct tickers as [|t l]; [done|]. intros _.
  unfold save_files, mbind, IO_bind. by rewrite !io_bind_eq.
Qed.

Lemma save_files_dirs tickers :
  tickers <> [] ->
  exists tr, (save_files tickers).2
             = MakeDirs "tickers" :: MakeDirs "by_industry" :: tr /\
             Forall (fun e => exists p rows, e = ToCsv p rows) tr.
Proof.
  destruct tickers as [|t l]; [done|]. intros _.
  unfold save_files, mbind, IO_bind. rewrite !io_bind_eq, !for_each_eq.
  simpl. eexists. split; [done|].
  repeat (constructor; [by eauto|]).
  rewrite app_nil_r. apply Forall_concat, Forall_fmap, Forall_forall.
  intros i _. simpl. unfold save_industry.
  destruct (length _ =? 0)%nat; repeat constructor; eauto.
Qed.

Lemma save_files_written tickers :
  tickers <> [] ->
  written (save_files tickers).2
  = list_writes (sort_values tickers)
    ++ industry_writes (sort_values tickers).
Proof.
  destruct tickers as [|t l]; [done|]. intros _.
  unfold save_files, mbind, IO_bind. rewrite !io_bind_eq.
  cbn [fst snd makedirs to_csv io_ret app for_each].
  unfold mbind, IO_bind. rewrite !io_bind_eq.
  cbn [fst snd makedirs to_csv io_ret app for_each].
  rewrite app_nil_r.
  change (written (?a :: ?b :: ?c :: ?d :: ?e :: ?f :: ?tr))
    with (list_writes (sort_values (t :: l)) ++ written tr).
  by rewrite industry_loop_written.
Qed.
End save_files_trace.

(** ** Running a trace on the file system *)

Lemma run_trace_files tr fs :
  files (run_trace tr fs) = write_all (written tr) (files fs).
Proof.
  unfold run_trace, write_all. revert fs.
  induction tr as [|e tr IH]; intros fs; [done|].
  simpl. rewrite IH. by destruct e.
Qed.

Lemma write_all_untouched ws m p :
  p ∉ ws.*1 -> write_all ws m !! p = m !! p.
Proof.
  unfold write_all. revert m.
  induction ws as [|[q rows] ws IH]; intros m Hp; [done|].
  simpl in *. apply not_elem_of_cons in Hp as [Hq Hp].
  rewrite IH by done. by apply lookup_insert_ne.
Qed.

Lemma write_all_last ws1 p rows ws2 m :
  p ∉ ws2.*1 -> write_all (ws1 ++ (p, rows) :: ws2) m !! p = Some rows.
Proof.
  intros Hp. unfold write_all. rewrite foldl_app. simpl.
  fold (write_all ws2 (<[p:=rows]> (foldl (fun m w => <[w.1:=w.2]> m) m ws1))).
  rewrite write_all_untouched by done. apply lookup_insert_eq.
Qed.

Lemma industry_path_head ind :
  exists rest, industry_path ind = String "b" rest.
Proof. by eexists. Qed.

Lemma industry_writes_paths df p :
  p ∈ (industry_writes df).*1 -> exists rest, p = String "b" rest.
Proof.
  unfold industry_writes. rewrite <-list_fmap_compose.
  intros (ind & -> & _)%list_elem_of_fmap. apply industry_path_head.
Qed.

(** ** Sorted lists and their sublists *)

Lemma StronglySorted_sublist {A} (R : relation A) (l1 l2 : list A) :
  l1 `sublist_of` l2 -> StronglySorted R l2 -> StronglySorted R l1.
Proof.
  induction 1 as [|x l1 l2 Hsub IH|x l1 l2 Hsub IH]; intros Hs.
  - constructor.
  - apply StronglySorted_cons in Hs as [Hx Hs].
    constructor; [by apply IH|].
    apply Forall_forall. intros y Hy.
    rewrite Forall_forall in Hx. apply Hx. by eapply elem_of_sublist.
  - apply StronglySorted_cons in Hs as [_ Hs]. by apply IH.
Qed.

Lemma StronglySorted_lookup {A} (R : relation A) (l : list A) i j a b :
  StronglySorted R l -> l !! i = Some a -> l !! j = Some b ->
  (i < j)%nat -> R a b.
Proof.
  intros Hs. revert i j.
  induction Hs as [|x l _ IH Hx]; intros i j Hi Hj Hlt; [done|].
  destruct j as [|j]; [lia|]. simpl in Hj.
  destruct i as [|i]; simpl in Hi.
  - injection Hi as ->. rewrite Forall_forall in Hx.
    apply Hx. by eapply list_elem_of_lookup_2.
  - eapply IH; [done..|lia].
Qed.

Lemma cap_ge_missing a b :
  cap_ge a b -> isna (marketCap a) = true -> isna (marketCap b) = true.
Proof.
  intros [Hb|(x & y & Ha & _ & Hx & _)]%cap_ge_spec Hna; [done|].
  rewrite Ha in Hna. congruence.
Qed.

Lemma sorted_missing_last rows :
  StronglySorted cap_ge rows -> missing_last rows.
Proof.
  intros Hs i j a b Hi Hj Ha Hb.
  destruct (decide (j < i)%nat) as [|Hge]; [done|].
  destruct (decide (i = j)) as [->|Hne].
  { rewrite Hi in Hj. injection Hj as ->. congruence. }
  assert (cap_ge a b) as Hab
    by (eapply StronglySorted_lookup; [done..|lia]).
  apply cap_ge_missing in Hab; congruence.
Qed.

(** ** The writer *)

(** C8.  On the empty sequence [save_files] returns [False] and its trace
    is empty: no directory is created, no file is written, and the file
    system is left as it was. *)
Theorem C8_empty_input_no_effects `{SortValues} (fs : FileSystem) :
  save_files [] = (false, []) /\
  run_trace (save_files []).2 fs = fs.
Proof. done. Qed.

(** C5.  For a sequence that is not empty [save_files] succeeds;
    [tickers/all.csv] then holds the sorted sequence, which has the records
    of the input, each as often as the input has it (once, when the symbols
    of the input are distinct, as those of the normaliser's output are), in
    descending order of [marketCap]; and [tickers/top_50.csv], [top_100]
    and [top_200] hold its first 50, 100 and 200 rows, all of them when
    there are fewer. *)
Theorem C5_ticker_lists `{SortValues} (tickers : list Ticker)
    (fs : FileSystem) :
  tickers <> [] ->
  let df := sort_values tickers in
  let fs' := run_trace (save_files tickers).2 fs in
  (save_files tickers).1 = true /\
  df ≡ₚ tickers /\ length df = length tickers /\
  (NoDup (symbol <$> tickers) -> NoDup (symbol <$> df)) /\
  StronglySorted cap_ge df /\
  files fs' !! "tickers/all.csv" = Some df /\
  forall n path,
    (n, path) ∈ [ (50, "tickers/top_50.csv"); (100, "tickers/top_100.csv");
                  (200, "tickers/top_200.csv") ]%nat ->
    top_path n = path /\
    files fs' !! path = Some (take n df) /\
    length (take n df) = min n (length tickers).
Proof.
  intros Hne df fs'.
  assert (length df = length tickers) as Hlen
    by (unfold df; by rewrite sort_values_perm).
  split; [by apply save_files_result|].
  split; [apply sort_values_perm|].
  split; [done|].
  split; [unfold df; by rewrite sort_values_perm|].
  split; [apply sort_values_sorted|].
  unfold fs'. rewrite run_trace_files, save_files_written by done.
  fold df.
  assert (forall p rows ws1 ws2,
     list_writes df = ws1 ++ (p, rows) :: ws2 ->
     p ∉ ws2.*1 -> (forall rest, p <> String "b" rest) ->
     write_all (list_writes df ++ industry_writes df) (files fs) !! p
     = Some rows) as Hlookup.
  { intros p rows ws1 ws2 -> Hp Hb.
    rewrite <-app_assoc. simpl. apply write_all_last.
    rewrite fmap_app. apply not_elem_of_app. split; [done|].
    intros (rest & ->)%industry_writes_paths. by eapply Hb. }
  split.
  { apply (Hlookup _ _ [] (tail (list_writes df))); [done| |done].
    simpl. by apply (bool_decide_unpack _). }
  intros n path Hn.
  rewrite length_take, Hlen.
  repeat (apply elem_of_cons in Hn as [[= -> ->]|Hn];
    [split; [by vm_compute|]; split; [|done]|]).
  - apply (Hlookup _ _ (take 1 (list_writes df)) (drop 2 (list_writes df)));
      [done| |done].
    simpl. by apply (bool_decide_unpack _).
  - apply (Hlookup _ _ (take 2 (list_writes df)) (drop 3 (list_writes df)));
      [done| |done].
    simpl. by apply (bool_decide_unpack _).
  - apply (Hlookup _ _ (take 3 (list_writes df)) []); [done| |done].
    simpl. apply not_elem_of_nil.
  - by apply elem_of_nil in Hn.
Qed.

Lemma C5_ticker_lists_witness :
  let tr := (@save_files stable_sort_values [t_mid; t_none; t_big]).2 in
  files (run_trace tr fs_empty) !! "tickers/all.csv"
  = Some [t_big; t_mid; t_none] /\
  files (run_trace tr fs_empty) !! "tickers/top_50.csv"
  = Some [t_big; t_mid; t_none].
Proof.
  assert ([t_mid; t_none; t_big] <> []) as Hne by done.
  destruct (@C5_ticker_lists stable_sort_values _ fs_empty Hne)
    as (_ & _ & _ & _ & _ & Hall & Htop).
  split; [exact Hall|].
  apply (Htop 50%nat "tickers/top_50.csv").
  by apply (bool_decide_unpack _).
Defined.

(** C2.  In every file that [save_files] writes, the full listing, the
    three prefixes and the industry partitions alike, each row whose
    [marketCap] is missing stands after every row whose [marketCap] is not.
    Missing is what the data frame takes as missing, [None] and NaN; in
    particular a row without a market capitalisation stands after every
    row that has a number for one. *)
Theorem C2_missing_market_cap_last `{SortValues} (tickers : list Ticker)
    (path : string) (rows : list Ticker) :
  (path, rows) ∈ written (save_files tickers).2 ->
  missing_last rows /\
  forall i j a b x,
    rows !! i = Some a -> rows !! j = Some b ->
    marketCap a = None -> marketCap b = Some x -> x <> S754_nan ->
    (j < i)%nat.
Proof.
  intros Hin.
  assert (missing_last rows) as Hlast.
  { destruct (decide (tickers = [])) as [->|Hne].
    { by apply elem_of_nil in Hin. }
    rewrite save_files_written in Hin by done.
    apply sorted_missing_last.
    apply StronglySorted_sublist with (sort_values tickers);
      [|apply sort_values_sorted].
    apply elem_of_app in Hin as [Hin|Hin].
    - unfold list_writes in Hin.
      repeat (apply elem_of_cons in Hin as [[= -> ->]|Hin];
              [done || apply sublist_take|]).
      by apply elem_of_nil in Hin.
    - unfold industry_writes in Hin.
      apply list_elem_of_fmap in Hin as (ind & [= -> ->] & _).
      apply select_industry_sublist. }
  split; [done|].
  intros i j a b x Hi Hj Ha Hb Hx. apply (Hlast i j a b Hi Hj).
  - by rewrite Ha.
  - rewrite Hb. by destruct x.
Qed.

Lemma C2_missing_market_cap_last_witness :
  missing_last [t_big; t_mid; t_dot; t_none].
Proof.
  apply (@C2_missing_market_cap_last stable_sort_values
           [t_none; t_mid; t_big; t_dot] "tickers/all.csv").
  rewrite save_files_written by done.
  apply elem_of_app. left. by left.
Defined.

(** ** The industry partitions *)

Lemma lstrip_chars_subset l c : c ∈ Py.lstrip_chars l -> c ∈ l.
Proof.
  induction l as [|x l IH]; simpl; [done|].
  destruct (Py.isspace x); [|done]. intros ?. right. by apply IH.
Qed.

Lemma strip_chars_subset l c : c ∈ Py.strip_chars l -> c ∈ l.
Proof.
  unfold Py.strip_chars. intros Hc.
  apply list_elem_of_In, in_rev, list_elem_of_In in Hc.
  apply lstrip_chars_subset, list_elem_of_In, in_rev, list_elem_of_In in Hc.
  by apply lstrip_chars_subset.
Qed.

Lemma collapse_ws_chars (P : ascii -> Prop) b l :
  P "_"%char ->
  (forall c, c ∈ l -> Py.isspace c = false -> P c) ->
  Forall P (collapse_ws b l).
Proof.
  intros Hu. revert b. induction l as [|c l IH]; intros b Hl; simpl.
  { constructor. }
  assert (forall b', Forall P (collapse_ws b' l)) as IH'.
  { intros b'. apply IH. intros c' Hc'. apply Hl. by right. }
  destruct (Py.isspace c) eqn:Hc.
  - destruct b; [done|by constructor].
  - constructor; [|done]. apply Hl; [by left|done].
Qed.

(** A file name made by [safe_name] holds word characters and hyphens
    only, and no white space. *)
Lemma safe_name_chars ind :
  Forall (fun c => (Py.isword c || Ascii.eqb c "-") = true /\
                   Py.isspace c = false)
         (Py.chars (safe_name ind)).
Proof.
  unfold safe_name, re_sub_spaces, Py.strip, re_sub_unsafe.
  rewrite !chars_str. apply collapse_ws_chars; [done|].
  intros c Hc%strip_chars_subset Hs.
  apply list_elem_of_In, filter_In in Hc as [_ Hc].
  rewrite Hs, orb_false_r in Hc. done.
Qed.

(** ** Two industries, one file name *)

Lemma ltb_not_le a b : String.ltb a b = true -> ~ String.le b a.
Proof.
  unfold String.ltb, String.le, String.leb.
  rewrite (String.compare_antisym a b).
  destruct (String.compare b a); simpl; intros E Hle; (done || discriminate).
Qed.

(** The last member of a list that is written to a given path. *)
Lemma last_with_path (inds : list string) (p : string) :
  (exists i, i ∈ inds /\ industry_path i = p) ->
  exists l1 j l2,
    inds = l1 ++ j :: l2 /\ industry_path j = p /\
    Forall (fun k => industry_path k <> p) l2.
Proof.
  induction inds as [|x l IH]; intros (i & Hi & Hp).
  { by apply elem_of_nil in Hi. }
  destruct (decide (Exists (fun k => industry_path k = p) l)) as [Hex|Hno].
  - apply Exists_exists in Hex. destruct (IH Hex) as (l1 & j & l2 & -> & ? & ?).
    by exists (x :: l1), j, l2.
  - apply not_Exists_Forall in Hno; [|intros k; apply _].
    exists [], x, l. split; [done|]. split; [|done].
    apply elem_of_cons in Hi as [->|Hi]; [done|].
    rewrite Forall_forall in Hno. by destruct (Hno i Hi).
Qed.

(** C10.  [safe_name] is not injective: ["Tech"] and ["Tech."] are
    different industries, neither of them blank, with the same file name.
    When two industries of the input that are not blank have the same file
    name, the file is written once for each, in ascending order of the
    industries, and every write replaces the one before: after the run the
    file holds rows, none of which belongs to the lesser industry, and it
    is the partition of the greater one when no industry above it shares
    the name. *)
Theorem C10_safe_name_collision `{SortValues} :
  ("Tech" <> "Tech." /\ Py.strip "Tech" <> "" /\ Py.strip "Tech." <> "" /\
   safe_name "Tech" = safe_name "Tech." /\ String.ltb "Tech" "Tech." = true) /\
  forall (tickers : list Ticker) (fs : FileSystem) (i1 i2 : string),
    Py.strip i1 <> "" -> Py.strip i2 <> "" ->
    (exists t, t ∈ tickers /\ industry t = i1) ->
    (exists t, t ∈ tickers /\ industry t = i2) ->
    String.ltb i1 i2 = true ->
    safe_name i1 = safe_name i2 ->
    exists rows,
      files (run_trace (save_files tickers).2 fs) !! industry_path i1
      = Some rows /\
      rows <> [] /\
      (forall t, t ∈ rows -> industry t <> i1) /\
      ((forall t, t ∈ tickers -> Py.strip (industry t) <> "" ->
                  industry_path (industry t) = industry_path i2 ->
                  String.le (industry t) i2) ->
       rows = select_industry i2 (sort_values tickers)).
Proof.
  split; [repeat split; by vm_compute|].
  intros tickers fs i1 i2 Hb1 Hb2 Ht1 Ht2 Hlt Hname.
  assert (tickers <> []) as Hne.
  { destruct Ht1 as (t & Ht & _). intros ->. by apply elem_of_nil in Ht. }
  set (df := sort_values tickers).
  assert (forall t, t ∈ df <-> t ∈ tickers) as Hdf.
  { intros t. unfold df. by rewrite sort_values_perm. }
  assert (forall i, i ∈ industries_of df <->
            Py.strip i <> "" /\ exists t, t ∈ tickers /\ industry t = i) as Hinds.
  { intros i. rewrite elem_of_industries_of. unfold blank.
    by setoid_rewrite Hdf. }
  assert (industry_path i1 = industry_path i2) as Hpath.
  { unfold industry_path. by rewrite Hname. }
  assert (i1 ∈ industries_of df) as Hi1 by by apply Hinds.
  assert (i2 ∈ industries_of df) as Hi2 by by apply Hinds.
  destruct (last_with_path (industries_of df) (industry_path i1))
    as (l1 & j & l2 & Hsplit & Hj & Hl2); [by exists i1|].
  assert (forall i, i ∈ industries_of df ->
            industry_path i = industry_path i1 -> String.le i j) as Hlast.
  { intros i Hi Hp. rewrite Hsplit in Hi.
    apply elem_of_app in Hi as [Hi|Hi].
    - pose proof (sorted_industries_of df) as Hs. rewrite Hsplit in Hs.
      eapply StronglySorted_app_1_elem_of; [done..|by left].
    - apply elem_of_cons in Hi as [->|Hi]; [done|].
      rewrite Forall_forall in Hl2. by destruct (Hl2 i Hi). }
  assert (j ∈ industries_of df) as Hjin.
  { rewrite Hsplit. apply elem_of_app. right. by left. }
  assert (j <> i1) as Hji.
  { intros ->. apply (ltb_not_le _ _ Hlt). apply Hlast; [done|by symmetry]. }
  exists (select_industry j df).
  split; [|split; [|split]].
  - rewrite run_trace_files, save_files_written by done. fold df.
    unfold industry_writes. rewrite Hsplit, fmap_app, fmap_cons, app_assoc.
    rewrite <-Hj. apply write_all_last.
    rewrite <-list_fmap_compose.
    intros (k & Hk & Hkin)%list_elem_of_fmap. simpl in Hk.
    rewrite Forall_forall in Hl2. apply (Hl2 k Hkin). by rewrite <-Hk.
  - apply Hinds in Hjin as (_ & t & Ht & Hind).
    intros E. assert (t ∈ select_industry j df) as Hin
      by (apply elem_of_select_industry; by rewrite Hdf).
    rewrite E in Hin. by apply elem_of_nil in Hin.
  - intros t (_ & ->)%elem_of_select_industry. done.
  - intros Hmax. f_equal. apply (anti_symm String.le).
    + destruct (proj1 (Hinds j) Hjin) as (Hbj & t & Ht & <-).
      apply Hmax; [done..|]. by rewrite Hj.
    + apply Hlast; [done|by symmetry].
Qed.

Lemma C10_safe_name_collision_witness :
  exists rows,
    files (run_trace (@save_files stable_sort_values
                        [t_none; t_mid; t_big; t_dot]).2 fs_empty)
      !! "by_industry/tech.csv" = Some rows /\
    rows <> [] /\ forall t, t ∈ rows -> industry t <> "Tech".
Proof.
  destruct (@C10_safe_name_collision stable_sort_values) as (_ & Hcoll).
  destruct (Hcoll [t_none; t_mid; t_big; t_dot] fs_empty "Tech" "Tech.")
    as (rows & Hfile & Hrows & Hnone & _).
  - by vm_compute.
  - by vm_compute.
  - exists t_mid. split; [|done]. right. left.
  - exists t_dot. split; [|done]. do 3 right. left.
  - reflexivity.
  - reflexivity.
  - exists rows. split; [exact Hfile|]. by split.
Defined.

(** ** The industry files after the run *)

Lemma industry_path_inj i j :
  industry_path i = industry_path j <-> safe_name i = safe_name j.
Proof.
  unfold industry_path. split; [|by intros ->].
  intros E. apply (f_equal Py.chars) in E. rewrite !chars_app in E.
  apply app_inv_head, app_inv_tail in E. by apply chars_inj.
Qed.

Lemma listed_industries_of `{SortValues} (tickers : list Ticker) i :
  i ∈ industries_of (sort_values tickers) <-> listed_industry tickers i.
Proof.
  assert (forall t, t ∈ sort_values tickers <-> t ∈ tickers) as Hdf.
  { intros t. by rewrite sort_values_perm. }
  rewrite elem_of_industries_of. unfold listed_industry, blank.
  by setoid_rewrite Hdf.
Qed.

(** The file of an industry after the run holds the partition of the last
    industry, in the order of the loop, that is written to its path. *)
Lemma industry_file_last `{SortValues} (tickers : list Ticker)
    (fs : FileSystem) (ind : string) :
  tickers <> [] ->
  listed_industry tickers ind ->
  exists j,
    listed_industry tickers j /\ safe_name j = safe_name ind /\
    (forall i, listed_industry tickers i -> safe_name i = safe_name ind ->
               String.le i j) /\
    files (run_trace (save_files tickers).2 fs) !! industry_path ind
    = Some (select_industry j (sort_values tickers)).
Proof.
  intros Hne Hind. set (df := sort_values tickers).
  apply listed_industries_of in Hind. fold df in Hind.
  destruct (last_with_path (industries_of df) (industry_path ind))
    as (l1 & j & l2 & Hsplit & Hj & Hl2); [by exists ind|].
  assert (j ∈ industries_of df) as Hjin.
  { rewrite Hsplit. apply elem_of_app. right. by left. }
  exists j. split; [by apply listed_industries_of|].
  split; [by apply industry_path_inj|]. split.
  - intros i Hi%listed_industries_of Hp%industry_path_inj.
    fold df in Hi. rewrite Hsplit in Hi.
    apply elem_of_app in Hi as [Hi|Hi].
    + pose proof (sorted_industries_of df) as Hs. rewrite Hsplit in Hs.
      eapply StronglySorted_app_1_elem_of; [done..|by left].
    + apply elem_of_cons in Hi as [->|Hi]; [done|].
      rewrite Forall_forall in Hl2. by destruct (Hl2 i Hi).
  - rewrite run_trace_files, save_files_written by done. fold df.
    unfold industry_writes. rewrite Hsplit, fmap_app, fmap_cons, app_assoc.
    rewrite <-Hj. apply write_all_last.
    rewrite <-list_fmap_compose.
    intros (k & Hk & Hkin)%list_elem_of_fmap. simpl in Hk.
    rewrite Forall_forall in Hl2. apply (Hl2 k Hkin). by rewrite <-Hk.
Qed.

(** Against C6 as stated.  ["Consumer Discretionary"] and
    ["consumer discretionary"] are two industries with one file name.  On a
    sequence that has a record of each, whatever the sort, the loop writes
    [by_industry/consumer_discretionary.csv] first for the former and then
    for the latter: after the run the file holds [t_low] alone, and not the
    records whose industry is ["Consumer Discretionary"], which are [t_big]
    alone. *)
Lemma C6_partition_file_replaced :
  listed_industry [t_big; t_low] "Consumer Discretionary" /\
  forall S : SortValues,
    let df := @sort_values S [t_big; t_low] in
    let fs' := run_trace (@save_files S [t_big; t_low]).2 fs_empty in
    select_industry "Consumer Discretionary" df = [t_big] /\
    files fs' !! "by_industry/consumer_discretionary.csv" = Some [t_low] /\
    files fs' !! "by_industry/consumer_discretionary.csv"
    <> Some (select_industry "Consumer Discretionary" df).
Proof.
  split.
  { split; [by vm_compute|]. exists t_big. split; [by left|reflexivity]. }
  intros S df fs'. subst df fs'.
  assert (@sort_values S [t_big; t_low] = [t_big; t_low]) as Hdf.
  { pose proof (@sort_values_perm S [t_big; t_low]) as Hp.
    pose proof (@sort_values_sorted S [t_big; t_low]) as Hs.
    symmetry in Hp. apply Permutation_length_2_inv in Hp as [E|E]; [done|].
    rewrite E in Hs. apply StronglySorted_cons in Hs as [Hx _].
    apply Forall_cons in Hx as [Hx _]. vm_compute in Hx. discriminate Hx. }
  assert (files (run_trace (@save_files S [t_big; t_low]).2 fs_empty)
            !! "by_industry/consumer_discretionary.csv" = Some [t_low])
    as Hfile.
  { rewrite run_trace_files, save_files_written by done. rewrite Hdf.
    change (industry_writes [t_big; t_low])
      with ([(industry_path "Consumer Discretionary", [t_big])]
            ++ [("by_industry/consumer_discretionary.csv", [t_low])]).
    rewrite app_assoc. apply write_all_last, not_elem_of_nil. }
  rewrite Hfile, Hdf. split; [reflexivity|]. split; [reflexivity|].
  intros E. apply (f_equal (fmap (fmap symbol))) in E.
  vm_compute in E. discriminate E.
Qed.

(** C6, amended.  [save_files] writes the four ticker lists and then, in
    ascending order of the industries, one file for each industry of the
    input that is not blank once stripped, each such industry once.  The
    file of an industry is named by [safe_name]: the industry in lower case,
    without the characters that are neither alphanumeric nor underscore nor
    white space nor hyphen, stripped, each run of white space turned into
    one underscore.  It is written with the records of that industry and no
    others, as often as the input has them, in the order of the sorted
    sequence.  After the run the file holds what was written to it last: the
    records of the greatest industry of the input with that file name, which
    are the industry's own when no other industry of the input shares the
    name.  No other file is touched, so an industry that is empty or all
    white space gives no file.  ["Consumer Discretionary"] gives
    [consumer_discretionary]. *)
Theorem C6_industry_files `{SortValues} (tickers : list Ticker)
    (fs : FileSystem) :
  tickers <> [] ->
  let df := sort_values tickers in
  let fs' := run_trace (save_files tickers).2 fs in
  (exists inds : list string,
     written (save_files tickers).2
     = list_writes df
       ++ ((fun ind => ("by_industry/" +:+ safe_name ind +:+ ".csv",
                        select_industry ind df)) <$> inds) /\
     NoDup inds /\ StronglySorted String.le inds /\
     forall ind, ind ∈ inds <-> listed_industry tickers ind) /\
  (forall ind,
     listed_industry tickers ind ->
     exists last,
       listed_industry tickers last /\ safe_name last = safe_name ind /\
       (forall i, listed_industry tickers i ->
                  safe_name i = safe_name ind -> String.le i last) /\
       files fs' !! ("by_industry/" +:+ safe_name ind +:+ ".csv")
       = Some (select_industry last df)) /\
  (forall ind,
     listed_industry tickers ind ->
     (forall i, listed_industry tickers i ->
                safe_name i = safe_name ind -> i = ind) ->
     files fs' !! ("by_industry/" +:+ safe_name ind +:+ ".csv")
     = Some (select_industry ind df)) /\
  (forall p,
     files fs' !! p <> files fs !! p ->
     p ∈ [ "tickers/all.csv"; "tickers/top_50.csv"; "tickers/top_100.csv";
           "tickers/top_200.csv" ] \/
     exists ind, listed_industry tickers ind /\
                 p = "by_industry/" +:+ safe_name ind +:+ ".csv") /\
  (forall ind,
     select_industry ind df `sublist_of` df /\
     select_industry ind df ≡ₚ select_industry ind tickers /\
     (forall t, t ∈ select_industry ind df <-> t ∈ tickers /\ industry t = ind) /\
     (listed_industry tickers ind -> select_industry ind df <> [])) /\
  (forall ind,
     safe_name ind
     = Py.str (collapse_ws false (Py.strip_chars
         (List.filter
            (fun c => Py.isalnum c || Ascii.eqb c "_" || Py.isspace c
                      || Ascii.eqb c "-")
            (List.map Py.lower_char (Py.chars ind))))) /\
     Forall (fun c => (Py.isword c || Ascii.eqb c "-") = true /\
                      Py.isspace c = false)
            (Py.chars (safe_name ind))) /\
  safe_name "Consumer Discretionary" = "consumer_discretionary".
Proof.
  intros Hne df fs'.
  assert (forall t, t ∈ df <-> t ∈ tickers) as Hdf.
  { intros t. unfold df. by rewrite sort_values_perm. }
  split.
  { exists (industries_of df). split; [|split; [|split]].
    - by rewrite save_files_written.
    - apply NoDup_industries_of.
    - apply sorted_industries_of.
    - intros ind. apply listed_industries_of. }
  split.
  { intros ind Hind.
    destruct (industry_file_last tickers fs ind Hne Hind)
      as (j & Hj & Hname & Hmax & Hfile).
    exists j. split; [done|]. split; [done|]. split; [done|]. exact Hfile. }
  split.
  { intros ind Hind Hown.
    destruct (industry_file_last tickers fs ind Hne Hind)
      as (j & Hj & Hname & _ & Hfile).
    rewrite (Hown j Hj Hname) in Hfile. exact Hfile. }
  split.
  { intros p Hp.
    destruct (decide (p ∈ (written (save_files tickers).2).*1)) as [Hin|Hout].
    - rewrite save_files_written in Hin by done.
      rewrite fmap_app in Hin. apply elem_of_app in Hin as [Hin|Hin].
      + by left.
      + right. unfold industry_writes in Hin.
        rewrite <-list_fmap_compose in Hin.
        apply list_elem_of_fmap in Hin as (ind & -> & Hind).
        exists ind. split; [|done]. by apply listed_industries_of.
    - destruct Hp. unfold fs'. rewrite run_trace_files.
      by apply write_all_untouched. }
  split.
  { intros ind. split; [apply select_industry_sublist|]. split; [|split].
    - apply select_industry_perm, sort_values_perm.
    - intros t. by rewrite elem_of_select_industry, Hdf.
    - intros (_ & t & Ht & Hi) E.
      assert (t ∈ select_industry ind df) as Hin
        by (apply elem_of_select_industry; by rewrite Hdf).
      rewrite E in Hin. by apply elem_of_nil in Hin. }
  split; [|by vm_compute].
  intros ind. split; [|apply safe_name_chars].
  unfold safe_name, re_sub_spaces, Py.strip, re_sub_unsafe.
  unfold Py.lower. rewrite !chars_str. do 3 f_equal.
  apply filter_ext. intros c. unfold Py.isword.
  destruct (Ascii.eqb c "_") eqn:E.
  - by apply Ascii.eqb_eq in E as ->.
  - assert ((Py.ord c =? 95)%N = false) as ->; [|done].
    apply N.eqb_neq. intros Hc. apply Ascii.eqb_neq in E. apply E.
    rewrite <-(ascii_N_embedding c). unfold Py.ord in Hc. by rewrite Hc.
Qed.

Lemma C6_industry_files_witness :
  files (run_trace (@save_files stable_sort_values
                      [t_none; t_mid; t_big; t_dot]).2 fs_empty)
    !! "by_industry/consumer_discretionary.csv" = Some [t_big].
Proof.
  assert ([t_none; t_mid; t_big; t_dot] <> []) as Hne by done.
  destruct (@C6_industry_files stable_sort_values _ fs_empty Hne)
    as (_ & _ & Hown & _).
  apply (Hown "Consumer Discretionary").
  - split; [by vm_compute|].
    exists t_big. split; [|reflexivity]. do 2 right. left.
  - intros i (_ & t & Ht & <-) Hname.
    repeat (apply elem_of_cons in Ht as [->|Ht];
            [try reflexivity; vm_compute in Hname; discriminate Hname|]).
    by apply elem_of_nil in Ht.
Defined.

(** ** Two sorted arrangements of the same rows *)

Lemma cap_ge_key a b : cap_ge a b <-> key_ge (cap_key a) (cap_key b).
Proof.
  rewrite cap_ge_spec. unfold cap_key, key_ge. split.
  - intros [Hb|(x & y & -> & -> & -> & -> & Hle)]; [|done].
    destruct (marketCap b) as [y|]; [|done]. by rewrite Hb.
  - destruct (marketCap b) as [y|]; [|by left].
    destruct (isna (Some y)) eqn:Hy; [by left|].
    destruct (marketCap a) as [x|]; [|done].
    destruct (isna (Some x)) eqn:Hx; [done|].
    intros Hle. right. by exists x, y.
Qed.

#[global] Instance key_ge_antisymm : AntiSymm (=) key_ge.
Proof.
  intros [[[a1 a2] a3]|] [[[b1 b2] b3]|]; unfold key_ge, lex_le;
    simpl; intros H1 H2; try done.
  assert (a1 = b1 /\ a2 = b2 /\ a3 = b3) as (-> & -> & ->) by lia. done.
Qed.

Lemma sorted_perm_keys l1 l2 :
  StronglySorted cap_ge l1 -> StronglySorted cap_ge l2 -> l1 ≡ₚ l2 ->
  cap_key <$> l1 = cap_key <$> l2.
Proof.
  intros H1 H2 Hp. apply (StronglySorted_unique key_ge).
  - eapply StronglySorted_fmap; [|exact H1]. intros a b. apply cap_ge_key.
  - eapply StronglySorted_fmap; [|exact H2]. intros a b. apply cap_ge_key.
  - by apply fmap_Permutation.
Qed.

Lemma cap_key_tie a b : cap_key a = cap_key b -> cap_tie a b.
Proof.
  intros E. split; apply cap_ge_key; rewrite E; apply cap_ge_key, cap_ge_refl.
Qed.

(** * Further properties *)

(** ** The row loop: counters, order, repeated rows *)

Lemma foldl_loop_counters st rows :
  let st' := foldl loop_body st rows in
  non_us_count st'
  = (non_us_count st + length (List.filter non_us rows))%nat /\
  (non_us_count st' + duplicate_count st' + length (tickers st')
   = non_us_count st + duplicate_count st + length (tickers st)
     + length rows)%nat /\
  (seen_symbols st = list_to_set (symbol <$> tickers st) ->
   seen_symbols st' = list_to_set (symbol <$> tickers st')).
Proof.
  revert st. induction rows as [|row rest IH]; intros st; simpl.
  { split; [lia|]. split; [lia|done]. }
  destruct (IH (loop_body st row)) as (IH1 & IH2 & IH3).
  unfold loop_body in *.
  destruct (non_us row); simpl in *.
  { split; [lia|]. split; [lia|done]. }
  destruct (negb (Py.truthy (row_symbol row))
            || bool_decide (row_symbol row ∈ seen_symbols st)); simpl in *.
  { split; [lia|]. split; [lia|done]. }
  rewrite length_app in IH2. simpl in IH2.
  split; [lia|]. split; [lia|].
  intros Hseen. apply IH3.
  rewrite fmap_app, list_to_set_app_L, Hseen. simpl. set_solver.
Qed.

(** X1.  The three numbers [fetch_tickers] prints add up: every row is counted
    once, as not of the United States, as a duplicate (which covers the rows
    with an empty symbol), or as a ticker found. The first counter is the
    number of rows of another country, and at the end of the loop
    [seen_symbols] holds the symbols of the tickers and nothing else. *)
Theorem fetch_tickers_counters (rows : list Row) :
  let st := row_loop rows in
  tickers st = fetch_tickers (Some rows) /\
  non_us_count st = length (List.filter non_us rows) /\
  (non_us_count st + duplicate_count st + length (tickers st)
   = length rows)%nat /\
  seen_symbols st = list_to_set (symbol <$> tickers st).
Proof.
  intros st. unfold st, row_loop.
  destruct (foldl_loop_counters loop_init rows) as (H1 & H2 & H3).
  split; [by destruct rows|].
  split; [exact H1|]. split; [exact H2|]. by apply H3.
Qed.

Lemma appended_sublist seen rows :
  appended seen rows
  `sublist_of` (fun r => make_ticker (row_symbol r) r) <$> rows.
Proof.
  revert seen. induction rows as [|row rest IH]; intros seen; simpl.
  { constructor. }
  destruct (non_us row); [by constructor|].
  destruct (negb (Py.truthy (row_symbol row))
            || bool_decide (row_symbol row ∈ seen)); by constructor.
Qed.

(** X2.  The output keeps the order of the rows: it is what is left of the list
    of the records of all rows when some are struck out. *)
Theorem fetch_tickers_keeps_order (rows : list Row) :
  fetch_tickers (Some rows)
  `sublist_of` (fun r => make_ticker (row_symbol r) r) <$> rows.
Proof. rewrite fetch_tickers_appended. apply appended_sublist. Qed.

Lemma appended_app seen l1 l2 :
  appended seen (l1 ++ l2)
  = appended seen l1
    ++ appended (list_to_set (symbol <$> appended seen l1) ∪ seen) l2.
Proof.
  revert seen. induction l1 as [|row l1 IH]; intros seen; simpl.
  { f_equal. set_solver. }
  destruct (non_us row); [done|].
  destruct (negb (Py.truthy (row_symbol row))
            || bool_decide (row_symbol row ∈ seen)); [done|].
  csimpl. rewrite IH. do 3 f_equal. set_solver.
Qed.

Lemma appended_complete seen rows r :
  r ∈ rows -> non_us r = false -> row_symbol r <> "" ->
  row_symbol r ∈ list_to_set (symbol <$> appended seen rows) ∪ seen.
Proof.
  intros Hr Hus Hne. revert seen.
  induction rows as [|row rest IH]; intros seen; [by apply elem_of_nil in Hr|].
  simpl.
  assert (r = row -> non_us row = false /\ row_symbol row = row_symbol r)
    as Hhead by (by intros ->).
  destruct (non_us row) eqn:Hrow.
  { apply elem_of_cons in Hr as [E|Hr]; [by destruct (Hhead E)|by apply IH]. }
  destruct (negb (Py.truthy (row_symbol row))
            || bool_decide (row_symbol row ∈ seen)) eqn:Hskip.
  { apply elem_of_cons in Hr as [E|Hr]; [|by apply IH].
    destruct (Hhead E) as [_ Hsym].
    apply orb_true_iff in Hskip as [Hempty|Hseen].
    - apply negb_true_iff, truthy_false in Hempty. congruence.
    - apply bool_decide_eq_true in Hseen. rewrite <-Hsym. set_solver. }
  csimpl. apply elem_of_cons in Hr as [E|Hr].
  - destruct (Hhead E) as [_ Hsym]. rewrite <-Hsym. set_solver.
  - specialize (IH Hr ({[row_symbol row]} ∪ seen)). set_solver.
Qed.

Lemma appended_all_seen seen rows :
  (forall r, r ∈ rows -> non_us r = false -> row_symbol r <> "" ->
             row_symbol r ∈ seen) ->
  appended seen rows = [].
Proof.
  induction rows as [|row rest IH]; intros Hall; simpl; [done|].
  assert (appended seen rest = []) as Hrest.
  { apply IH. intros r Hr. apply Hall. by right. }
  destruct (non_us row) eqn:Hrow; [done|].
  destruct (negb (Py.truthy (row_symbol row))
            || bool_decide (row_symbol row ∈ seen)) eqn:Hskip; [done|].
  apply skip_symbol_false in Hskip as [Hne Hnew].
  destruct Hnew. apply Hall; [by left|done..].
Qed.

(** X3.  Rows that come again change nothing: when every row of [more] is
    already among [rows], the output for [rows] followed by [more] is the
    output for [rows]. *)
Theorem fetch_tickers_repeated_rows (rows more : list Row) :
  more ⊆ rows ->
  fetch_tickers (Some (rows ++ more)) = fetch_tickers (Some rows).
Proof.
  intros Hsub. rewrite !fetch_tickers_appended, appended_app.
  rewrite (appended_all_seen _ more); [by rewrite app_nil_r|].
  intros r Hr Hus Hne. apply appended_complete; [by apply Hsub|done..].
Qed.

Lemma fetch_tickers_repeated_rows_witness :
  fetch_tickers (Some ([row_ca; row_us1; row_us2] ++ [row_us2; row_us1]))
  = fetch_tickers (Some [row_ca; row_us1; row_us2]).
Proof.
  apply fetch_tickers_repeated_rows.
  intros r Hr. apply elem_of_cons in Hr as [->|Hr]; [do 2 right; by left|].
  apply list_elem_of_singleton in Hr as ->. right. by left.
Defined.

(** ** The script: exit status *)

Lemma fetch_tickers_nonempty rows :
  fetch_tickers (Some rows) <> [] <->
  exists r, r ∈ rows /\ get r "country" = Some "United States" /\
            row_symbol r <> "".
Proof.
  rewrite fetch_tickers_appended. split.
  - intros Hne. destruct (appended ∅ rows) as [|t l] eqn:E; [done|].
    assert (t ∈ appended ∅ rows) as Ht by (rewrite E; by left).
    apply appended_sound
      in Ht as (Hs & _ & row & Hin & Hus%non_us_false & Hsym & _).
    exists row. by rewrite Hsym.
  - intros (r & Hr & Hus%non_us_false & Hne) E.
    pose proof (appended_complete ∅ rows r Hr Hus Hne) as Hin.
    rewrite E in Hin. set_solver.
Qed.

Lemma main_empty `{SortValues} (response : option (list Row)) :
  fetch_tickers response = [] -> main response = (1, []).
Proof. intros E. unfold main. by rewrite E. Qed.

Lemma main_found `{SortValues} (response : option (list Row)) :
  fetch_tickers response <> [] ->
  main response = (0, (save_files (fetch_tickers response)).2).
Proof.
  intros Hne. unfold main.
  destruct (fetch_tickers response) as [|t l] eqn:E; [done|].
  unfold mbind, IO_bind. rewrite io_bind_eq.
  rewrite (save_files_result (t :: l)) by done. simpl.
  by rewrite app_nil_r.
Qed.

(** X4.  The script exits with status 0, having run [save_files] on the
    tickers, exactly when the response holds a row of the United States with a
    symbol that is not blank; otherwise, and when the request fails, it exits
    with status 1 and has touched no file. The branch that reports a failed
    save is never taken. *)
Theorem main_exit_status `{SortValues} (response : option (list Row)) :
  (fetch_tickers response = [] -> main response = (1, [])) /\
  (fetch_tickers response <> [] ->
     main response = (0, (save_files (fetch_tickers response)).2)) /\
  (response = None -> main response = (1, [])) /\
  (forall rows, response = Some rows ->
     ((main response).1 = 0 <->
      exists r, r ∈ rows /\ get r "country" = Some "United States" /\
                row_symbol r <> "")).
Proof.
  split; [apply main_empty|]. split; [apply main_found|]. split.
  { intros ->. by apply main_empty. }
  intros rows ->. rewrite <-fetch_tickers_nonempty. split.
  - intros Hcode Hnil. by rewrite (main_empty _ Hnil) in Hcode.
  - intros Hne. by rewrite (main_found _ Hne).
Qed.

Lemma main_exit_status_witness :
  (@main stable_sort_values (Some [row_ca; row_nowhere])).1 = 1 /\
  (@main stable_sort_values (Some [row_ca; row_us1])).1 = 0.
Proof.
  split.
  - destruct (@main_exit_status stable_sort_values
                (Some [row_ca; row_nowhere])) as (Hempty & _).
    rewrite Hempty; [done|].
    rewrite fetch_tickers_appended. apply appended_all_seen.
    intros r Hr Hus. exfalso.
    apply elem_of_cons in Hr as [->|Hr];
      [|apply list_elem_of_singleton in Hr as ->];
      apply non_us_false in Hus; unfold get in Hus;
      by simplify_map_eq.
  - destruct (@main_exit_status stable_sort_values
                (Some [row_ca; row_us1])) as (_ & _ & _ & Hcode).
    apply (Hcode _ eq_refl). exists row_us1.
    split; [right; by left|]. split.
    + unfold get, row_us1. by simplify_map_eq.
    + unfold row_symbol, get_or_empty, row_us1.
      rewrite lookup_insert_ne, lookup_insert_eq by done. done.
Defined.

(** ** The writer: directories, other files, order of every file *)

Lemma run_trace_writes_dirs tr fs :
  Forall (fun e => exists p rows, e = ToCsv p rows) tr ->
  dirs (run_trace tr fs) = dirs fs.
Proof.
  unfold run_trace. intros Htr. revert fs.
  induction Htr as [|e tr (p & rows & ->) _ IH]; intros fs; [done|].
  simpl. by rewrite IH.
Qed.

Lemma elem_of_industry_paths df p :
  p ∈ (industry_writes df).*1 <->
  exists ind, ind ∈ industries_of df /\ p = industry_path ind.
Proof.
  unfold industry_writes. rewrite <-list_fmap_compose, list_elem_of_fmap.
  naive_solver.
Qed.

Lemma save_files_run_dirs `{SortValues} (tickers : list Ticker)
    (fs : FileSystem) :
  tickers <> [] ->
  dirs (run_trace (save_files tickers).2 fs)
  = {[ "tickers"; "by_industry" ]} ∪ dirs fs.
Proof.
  intros Hne. destruct (save_files_dirs tickers Hne) as (tr' & E & Hw).
  rewrite E. unfold run_trace. simpl.
  fold (run_trace tr' (mkFS ({["by_industry"]} ∪ ({["tickers"]} ∪ dirs fs))
                            (files fs))).
  rewrite run_trace_writes_dirs by done. simpl. set_solver.
Qed.

(** X5.  A run on a sequence that is not empty adds the two directories to
    those that exist, writes the four ticker lists and one file for each
    industry of the input that is not blank, and leaves every other file as it
    was. *)
Theorem save_files_frame `{SortValues} (tickers : list Ticker)
    (fs : FileSystem) :
  tickers <> [] ->
  let tr := (save_files tickers).2 in
  dirs (run_trace tr fs) = {[ "tickers"; "by_industry" ]} ∪ dirs fs /\
  (forall p, p ∈ (written tr).*1 <->
     p ∈ [ "tickers/all.csv"; "tickers/top_50.csv"; "tickers/top_100.csv";
           "tickers/top_200.csv" ] \/
     exists ind t, Py.strip ind <> "" /\ t ∈ tickers /\ industry t = ind /\
                   p = industry_path ind) /\
  (forall p, p ∈ (written tr).*1 -> is_Some (files (run_trace tr fs) !! p)) /\
  (forall p, p ∉ (written tr).*1 ->
     files (run_trace tr fs) !! p = files fs !! p).
Proof.
  intros Hne tr.
  split; [by apply save_files_run_dirs|].
  split.
  { intros p. unfold tr. rewrite save_files_written by done.
    rewrite fmap_app, elem_of_app, elem_of_industry_paths.
    apply or_iff_compat_l. split.
    - intros (ind & Hin & ->).
      apply elem_of_industries_of in Hin as (Hb & t & Ht & Hi).
      exists ind, t. rewrite sort_values_perm in Ht. done.
    - intros (ind & t & Hb & Ht & Hi & ->). exists ind. split; [|done].
      apply elem_of_industries_of. split; [done|].
      exists t. by rewrite sort_values_perm. }
  split.
  { intros p Hp. rewrite run_trace_files.
    apply list_elem_of_fmap in Hp as ([q rows] & -> & Hin).
    apply list_elem_of_split in Hin as (ws1 & ws2 & E). rewrite E. simpl.
    clear E. revert ws1 rows.
    induction ws2 as [|[q' rows'] ws2 IH] using rev_ind; intros ws1 rows.
    - unfold write_all. rewrite foldl_app. simpl.
      rewrite lookup_insert_eq. by eexists.
    - replace (ws1 ++ (q, rows) :: ws2 ++ [(q', rows')])
        with ((ws1 ++ (q, rows) :: ws2) ++ [(q', rows')])
        by by rewrite <-app_assoc.
      unfold write_all. rewrite foldl_app. simpl.
      destruct (decide (q' = q)) as [->|Hq].
      + rewrite lookup_insert_eq. by eexists.
      + rewrite lookup_insert_ne by done. apply IH. }
  intros p Hp. rewrite run_trace_files. by apply write_all_untouched.
Qed.

Lemma save_files_frame_witness :
  let tr := (@save_files stable_sort_values [t_mid; t_big]).2 in
  dirs (run_trace tr fs_empty)
  = {[ "tickers"; "by_industry" ]} ∪ dirs fs_empty /\
  is_Some (files (run_trace tr fs_empty) !! industry_path "Tech").
Proof.
  assert ([t_mid; t_big] <> []) as Hne by done.
  destruct (@save_files_frame stable_sort_values _ fs_empty Hne)
    as (Hdirs & Hpaths & Hsome & _).
  split; [exact Hdirs|].
  apply Hsome, Hpaths. right. exists "Tech", t_mid.
  clear. split; [by vm_compute|]. split; [by left|]. split; reflexivity.
Defined.

Lemma written_rows_sublist `{SortValues} (tickers : list Ticker)
    (path : string) (rows : list Ticker) :
  (path, rows) ∈ written (save_files tickers).2 ->
  rows `sublist_of` sort_values tickers.
Proof.
  intros Hin. destruct (decide (tickers = [])) as [->|Hne].
  { by apply elem_of_nil in Hin. }
  rewrite save_files_written in Hin by done.
  apply elem_of_app in Hin as [Hin|Hin].
  - unfold list_writes in Hin.
    repeat (apply elem_of_cons in Hin as [[= -> ->]|Hin];
            [done || apply sublist_take|]).
    by apply elem_of_nil in Hin.
  - unfold industry_writes in Hin.
    apply list_elem_of_fmap in Hin as (ind & [= -> ->] & _).
    apply select_industry_sublist.
Qed.

(** X6.  Every file that [save_files] writes holds rows of the full listing in
    the order of the full listing: a selection of the sorted sequence, in
    descending order of [marketCap], and without two rows of one symbol when
    the input has none. *)
Theorem save_files_every_file_sorted `{SortValues} (tickers : list Ticker)
    (path : string) (rows : list Ticker) :
  (path, rows) ∈ written (save_files tickers).2 ->
  rows `sublist_of` sort_values tickers /\
  StronglySorted cap_ge rows /\
  (NoDup (symbol <$> tickers) -> NoDup (symbol <$> rows)).
Proof.
  intros Hin.
  assert (rows `sublist_of` sort_values tickers) as Hsub
    by by eapply written_rows_sublist.
  split; [done|]. split.
  - eapply StronglySorted_sublist; [done|apply sort_values_sorted].
  - intros Hnd. apply sublist_NoDup with (symbol <$> sort_values tickers).
    + by rewrite sort_values_perm.
    + by apply fmap_sublist.
Qed.

Lemma save_files_every_file_sorted_witness :
  StronglySorted cap_ge [t_big; t_mid; t_dot; t_none] /\
  NoDup (symbol <$> [t_big; t_mid; t_dot; t_none]).
Proof.
  destruct (@save_files_every_file_sorted stable_sort_values
              [t_none; t_mid; t_big; t_dot] "tickers/all.csv"
              [t_big; t_mid; t_dot; t_none]) as (_ & Hsorted & Hnd).
  - rewrite save_files_written by done. apply elem_of_app. left. by left.
  - split; [exact Hsorted|]. apply Hnd.
    apply (bool_decide_unpack _). reflexivity.
Defined.

(** ** The industry files, taken together *)

Lemma List_filter_perm {A} (f : A -> bool) (l1 l2 : list A) :
  l1 ≡ₚ l2 -> List.filter f l1 ≡ₚ List.filter f l2.
Proof.
  induction 1 as [|x l l' _ IH|x y l|l l' l'' _ IH1 _ IH2]; simpl.
  - done.
  - destruct (f x); by rewrite IH.
  - destruct (f x), (f y); (done || apply Permutation_swap).
  - by etrans.
Qed.

Lemma concat_select_nil (ks : list string) :
  concat ((fun k => select_industry k []) <$> ks) = [].
Proof. induction ks as [|k ks IH]; [done|]. exact IH. Qed.

Lemma concat_select_cons (ks : list string) (t : Ticker) (l : list Ticker) :
  NoDup ks ->
  concat ((fun k => select_industry k (t :: l)) <$> ks)
  ≡ₚ (if bool_decide (industry t ∈ ks) then [t] else [])
     ++ concat ((fun k => select_industry k l) <$> ks).
Proof.
  induction 1 as [|k ks Hk Hnd IH]; [done|].
  csimpl. rewrite IH. unfold select_industry at 1. simpl.
  fold (select_industry k l).
  destruct (String.eqb (industry t) k) eqn:E.
  - apply String.eqb_eq in E. rewrite E.
    rewrite (bool_decide_eq_true_2 (k ∈ k :: ks)) by by left.
    by rewrite (bool_decide_eq_false_2 (k ∈ ks)) by done.
  - apply String.eqb_neq in E.
    destruct (decide (industry t ∈ ks)) as [Hin|Hout].
    + rewrite (bool_decide_eq_true_2 (industry t ∈ ks)) by done.
      rewrite (bool_decide_eq_true_2 (industry t ∈ k :: ks)) by by right.
      simpl. by rewrite <-Permutation_middle.
    + rewrite (bool_decide_eq_false_2 (industry t ∈ ks)) by done.
      rewrite (bool_decide_eq_false_2 (industry t ∈ k :: ks)); [done|].
      by intros [?|?]%elem_of_cons.
Qed.

Lemma concat_select_perm (ks : list string) (l : list Ticker) :
  NoDup ks ->
  concat ((fun k => select_industry k l) <$> ks)
  ≡ₚ List.filter (fun t => bool_decide (industry t ∈ ks)) l.
Proof.
  intros Hnd. induction l as [|t l IH]; [by rewrite concat_select_nil|].
  rewrite concat_select_cons, IH by done. simpl.
  by destruct (bool_decide (industry t ∈ ks)).
Qed.

(** X7.  The industry files share out the records whose industry is not blank:
    taken together, the files written after the four ticker lists hold each
    such record of the input as often as the input has it, and no record whose
    industry is blank. There is one file for each industry. *)
Theorem save_files_partition `{SortValues} (tickers : list Ticker) :
  tickers <> [] ->
  let ws := drop 4 (written (save_files tickers).2) in
  concat ws.*2
  ≡ₚ List.filter (fun t => Py.truthy (Py.strip (industry t))) tickers /\
  length ws = length (industries_of tickers).
Proof.
  intros Hne ws. unfold ws. rewrite save_files_written by done.
  change (drop 4 (list_writes ?df ++ ?iw)) with iw.
  set (df := sort_values tickers).
  assert (df ≡ₚ tickers) as Hperm by apply sort_values_perm.
  split.
  - unfold industry_writes. rewrite <-list_fmap_compose.
    change (snd ∘ _) with (fun k => select_industry k df).
    rewrite concat_select_perm by apply NoDup_industries_of.
    rewrite <-(List_filter_perm _ _ _ Hperm).
    erewrite filter_ext_in; [done|].
    intros t Ht%list_elem_of_In. simpl.
    destruct (Py.truthy (Py.strip (industry t))) eqn:E.
    + apply bool_decide_eq_true, elem_of_industries_of. split; [|by eauto].
      unfold blank. intros Hb. by rewrite Hb in E.
    + apply bool_decide_eq_false.
      intros (Hb & _)%elem_of_industries_of. apply Hb.
      by apply truthy_false.
  - unfold industry_writes. rewrite length_fmap.
    apply Permutation_length, NoDup_Permutation;
      [apply NoDup_industries_of..|].
    intros i. rewrite !elem_of_industries_of.
    by setoid_rewrite Hperm.
Qed.

Lemma save_files_partition_witness :
  concat (drop 4 (written (@save_files stable_sort_values
                             [t_none; t_mid; t_big; t_dot]).2)).*2
  ≡ₚ [t_mid; t_big; t_dot].
Proof.
  assert ([t_none; t_mid; t_big; t_dot] <> []) as Hne by done.
  exact (proj1 (@save_files_partition stable_sort_values _ Hne)).
Defined.

(** ** The writer and the order of its input *)

Lemma sorted_perm_tie l1 l2 :
  StronglySorted cap_ge l1 -> StronglySorted cap_ge l2 -> l1 ≡ₚ l2 ->
  Forall2 cap_tie l1 l2.
Proof.
  intros H1 H2 Hp.
  pose proof (sorted_perm_keys l1 l2 H1 H2 Hp) as E.
  apply list_eq_Forall2 in E.
  apply (proj1 (Forall2_fmap _ _ _ _ _)) in E.
  eapply Forall2_impl; [exact E|]. intros a b. apply cap_key_tie.
Qed.

Lemma industries_of_perm df1 df2 :
  df1 ≡ₚ df2 -> industries_of df1 = industries_of df2.
Proof.
  intros Hp. apply (StronglySorted_unique String.le);
    [apply sorted_industries_of..|].
  apply NoDup_Permutation; [apply NoDup_industries_of..|].
  intros i. rewrite !elem_of_industries_of. by setoid_rewrite Hp.
Qed.

Lemma save_files_written_tie (S1 S2 : SortValues)
    (l1 l2 : list Ticker) :
  l1 ≡ₚ l2 ->
  Forall2 (fun w1 w2 => w1.1 = w2.1 /\ Forall2 cap_tie w1.2 w2.2)
          (written (@save_files S1 l1).2) (written (@save_files S2 l2).2).
Proof.
  intros Hp.
  destruct (decide (l1 = [])) as [->|Hne1].
  { apply Permutation_nil in Hp as ->. constructor. }
  assert (l2 <> []) as Hne2.
  { intros ->. by apply Permutation_nil_r in Hp. }
  rewrite !save_files_written by done.
  set (df1 := @sort_values S1 l1). set (df2 := @sort_values S2 l2).
  assert (df1 ≡ₚ df2) as Hdf.
  { unfold df1, df2. by rewrite !sort_values_perm. }
  assert (Forall2 cap_tie df1 df2) as Htie.
  { apply sorted_perm_tie; [apply sort_values_sorted..|done]. }
  apply Forall2_app.
  - unfold list_writes.
    repeat (constructor; [split; [done|]; simpl;
                          done || by apply Forall2_take|]).
    constructor.
  - unfold industry_writes. rewrite (industries_of_perm df1 df2 Hdf).
    apply Forall2_fmap, Forall_Forall2_diag, Forall_forall.
    intros ind _. split; [done|]. simpl.
    apply sorted_perm_tie.
    + eapply StronglySorted_sublist;
        [apply select_industry_sublist|apply sort_values_sorted].
    + eapply StronglySorted_sublist;
        [apply select_industry_sublist|apply sort_values_sorted].
    + by apply select_industry_perm.
Qed.

(** X8.  What [save_files] writes depends neither on the order of its input nor
    on what the sort does with ties, up to ties: for two arrangements of the
    same records and any two sorts, the same files are written in the same
    order, and two files of one name have rows that tie position by position. *)
Theorem save_files_input_order (S1 S2 : SortValues)
    (l1 l2 : list Ticker) :
  l1 ≡ₚ l2 ->
  Forall2 (fun w1 w2 => w1.1 = w2.1 /\ Forall2 cap_tie w1.2 w2.2)
          (written (@save_files S1 l1).2) (written (@save_files S2 l2).2).
Proof. apply save_files_written_tie. Qed.

Lemma save_files_input_order_witness :
  Forall2 (fun w1 w2 => w1.1 = w2.1 /\ Forall2 cap_tie w1.2 w2.2)
    (written (@save_files stable_sort_values [t_mid; t_dot; t_big]).2)
    (written (@save_files reversing_sort_values [t_big; t_dot; t_mid]).2).
Proof.
  apply save_files_input_order.
  change [t_mid; t_dot; t_big] with (reverse [t_big; t_dot; t_mid]).
  apply reverse_Permutation.
Defined.

(** ** Running the writer again *)

Lemma fs_eq fs1 fs2 :
  dirs fs1 = dirs fs2 -> files fs1 = files fs2 -> fs1 = fs2.
Proof. destruct fs1, fs2. simpl. by intros -> ->. Qed.

Lemma run_trace_dirs tr :
  exists made : gset string,
    forall fs, dirs (run_trace tr fs) = made ∪ dirs fs.
Proof.
  unfold run_trace. induction tr as [|e tr (made & IH)].
  { exists ∅. intros fs. simpl. set_solver. }
  destruct e as [d|p rows].
  - exists (made ∪ {[ d ]}). intros fs. simpl. rewrite IH. simpl. set_solver.
  - exists made. intros fs. simpl. by rewrite IH.
Qed.

Lemma write_all_written ws m1 m2 p :
  p ∈ ws.*1 -> write_all ws m1 !! p = write_all ws m2 !! p.
Proof.
  revert m1 m2. induction ws as [|[q rows] ws IH]; intros m1 m2 Hp.
  { by apply elem_of_nil in Hp. }
  unfold write_all. simpl. fold (write_all ws (<[q:=rows]> m1)).
  fold (write_all ws (<[q:=rows]> m2)).
  destruct (decide (p ∈ ws.*1)) as [Hin|Hout]; [by apply IH|].
  rewrite !write_all_untouched by done.
  simpl in Hp. apply elem_of_cons in Hp as [->|Hp]; [|done].
  by rewrite !lookup_insert_eq.
Qed.

Lemma run_trace_twice tr fs :
  run_trace tr (run_trace tr fs) = run_trace tr fs.
Proof.
  apply fs_eq.
  - destruct (run_trace_dirs tr) as (made & Hd). rewrite !Hd. set_solver.
  - rewrite !run_trace_files. apply map_eq. intros p.
    destruct (decide (p ∈ (written tr).*1)) as [Hin|Hout].
    + by apply write_all_written.
    + by rewrite write_all_untouched.
Qed.

(** X9.  Running [save_files] a second time on the same records leaves the file
    system as the first run left it; so does a second run on the same records
    in another order, as far as the directories and the names of the files go. *)
Theorem save_files_again `{SortValues} (tickers : list Ticker)
    (fs : FileSystem) :
  let tr := (save_files tickers).2 in
  run_trace tr (run_trace tr fs) = run_trace tr fs /\
  forall tickers', tickers' ≡ₚ tickers ->
    let fs' := run_trace (save_files tickers').2 (run_trace tr fs) in
    dirs fs' = dirs (run_trace tr fs) /\
    dom (files fs') = dom (files (run_trace tr fs)).
Proof.
  intros tr. split; [apply run_trace_twice|].
  intros tickers' Hp fs'.
  assert (forall ws (m : gmap string (list Ticker)),
            dom (write_all ws m) = list_to_set ws.*1 ∪ dom m) as Hdom.
  { intros ws. unfold write_all.
    induction ws as [|[q rows] ws IH]; intros m; simpl; [set_solver|].
    rewrite IH, dom_insert_L. set_solver. }
  assert ((written (save_files tickers').2).*1 = (written tr).*1) as Hpaths.
  { pose proof (save_files_written_tie _ _ _ _ Hp) as Hw.
    unfold tr. induction Hw as [|w1 w2 ws1 ws2 [E _] _ IH]; [done|].
    csimpl. by rewrite E, IH. }
  split.
  - destruct (decide (tickers = [])) as [->|Hne].
    { by apply Permutation_nil_r in Hp as ->. }
    assert (tickers' <> []) as Hne'.
    { intros ->. by apply Permutation_nil in Hp. }
    pose proof (save_files_run_dirs tickers' (run_trace tr fs) Hne') as E1.
    pose proof (save_files_run_dirs tickers fs Hne) as E2.
    unfold fs'. rewrite E1. fold tr in E2. rewrite E2. set_solver.
  - unfold fs'. rewrite !run_trace_files, !Hdom, Hpaths. set_solver.
Qed.

Lemma save_files_again_witness :
  let tr := (@save_files stable_sort_values [t_mid; t_big]).2 in
  let fs1 := run_trace tr fs_empty in
  dirs (run_trace (@save_files stable_sort_values [t_big; t_mid]).2 fs1)
  = dirs fs1.
Proof.
  destruct (@save_files_again stable_sort_values [t_mid; t_big] fs_empty)
    as (_ & Hagain).
  apply (Hagain [t_big; t_mid]). apply Permutation_swap.
Defined.

(** ** The parsers and the separators *)

Lemma remove_char_chars c s :
  Py.chars (Py.remove_char c s)
  = List.filter (fun x => negb (Ascii.eqb x c)) (Py.chars s).
Proof. unfold Py.remove_char. by rewrite chars_str. Qed.

Lemma List_filter_comm {A} (f g : A -> bool) (l : list A) :
  List.filter f (List.filter g l) = List.filter g (List.filter f l).
Proof.
  induction l as [|x l IH]; [done|]. simpl.
  destruct (f x) eqn:Hf, (g x) eqn:Hg; simpl; rewrite ?Hf, ?Hg, IH; done.
Qed.

Lemma List_filter_idem {A} (f : A -> bool) (l : list A) :
  List.filter f (List.filter f l) = List.filter f l.
Proof.
  induction l as [|x l IH]; [done|]. simpl.
  destruct (f x) eqn:Hf; simpl; rewrite ?Hf, IH; done.
Qed.

Lemma remove_char_comm c d s :
  Py.remove_char c (Py.remove_char d s)
  = Py.remove_char d (Py.remove_char c s).
Proof.
  apply chars_inj. rewrite !remove_char_chars. apply List_filter_comm.
Qed.

Lemma remove_char_idem c s :
  Py.remove_char c (Py.remove_char c s) = Py.remove_char c s.
Proof.
  apply chars_inj. rewrite !remove_char_chars. apply List_filter_idem.
Qed.

Lemma cleaned_remove_comma s : cleaned (Py.remove_char "," s) = cleaned s.
Proof.
  unfold cleaned. by rewrite (remove_char_comm "$" ","), remove_char_idem.
Qed.

Lemma cleaned_remove_dollar s : cleaned (Py.remove_char "$" s) = cleaned s.
Proof. unfold cleaned. by rewrite remove_char_idem. Qed.

(** A parser that answers [None] on the two sentinels and otherwise looks
    at its input only through [K] does not see the characters that [K]
    drops. *)
Lemma sentinel_parser_remove {A} (F : string -> option A)
    (K : string -> string) (c : ascii) (s : string) :
  (forall s', K (Py.remove_char c s') = K s') ->
  Py.remove_char c "N/A" = "N/A" ->
  F (K "") = None -> F (K "N/A") = None ->
  (if negb (Py.truthy (Py.remove_char c s))
      || String.eqb (Py.remove_char c s) "N/A"
   then None else F (K (Py.remove_char c s)))
  = (if negb (Py.truthy s) || String.eqb s "N/A" then None else F (K s)).
Proof.
  intros HK Hna H1 H2. rewrite HK.
  destruct (negb (Py.truthy s) || String.eqb s "N/A") eqn:Es.
  - apply orb_true_iff in Es as [Es|Es].
    + apply negb_true_iff, truthy_false in Es as ->. done.
    + apply String.eqb_eq in Es as ->. by rewrite Hna.
  - destruct (negb (Py.truthy (Py.remove_char c s))
              || String.eqb (Py.remove_char c s) "N/A") eqn:Er; [|done].
    rewrite <-(HK s).
    apply orb_true_iff in Er as [Er|Er].
    + apply negb_true_iff, truthy_false in Er. by rewrite Er.
    + apply String.eqb_eq in Er. by rewrite Er.
Qed.

(** X10.  The separators do not count: the thousands commas can be left out of
    the text of a price, of a market capitalisation or of a volume, and the
    dollar signs out of the first two, without any change to what the parsers
    return. *)
Theorem parsers_ignore_separators (s : string) :
  parse_number (Py.remove_char "," s) = parse_number s /\
  parse_number (Py.remove_char "$" s) = parse_number s /\
  parse_market_cap (Py.remove_char "," s) = parse_market_cap s /\
  parse_market_cap (Py.remove_char "$" s) = parse_market_cap s /\
  parse_int (Py.remove_char "," s) = parse_int s.
Proof.
  repeat split.
  - apply (sentinel_parser_remove Num.float cleaned);
      [apply cleaned_remove_comma|done..].
  - apply (sentinel_parser_remove Num.float cleaned);
      [apply cleaned_remove_dollar|done..].
  - apply (sentinel_parser_remove (market_cap_loop multipliers) cleaned);
      [apply cleaned_remove_comma|done..].
  - apply (sentinel_parser_remove (market_cap_loop multipliers) cleaned);
      [apply cleaned_remove_dollar|done..].
  - apply (sentinel_parser_remove Num.int
             (fun s => Py.strip (Py.remove_char "," s)));
      [intros s'; by rewrite remove_char_idem|done..].
Qed.

(** A market capitalisation written without one of the four suffixes is
    parsed as a price is. *)
Lemma parse_market_cap_plain (s : string) :
  (forall p x, cleaned s = p +:+ String x "" ->
     x ∉ ["T"%char; "B"%char; "M"%char; "K"%char]) ->
  parse_market_cap s = parse_number s.
Proof.
  intros Hplain. unfold parse_market_cap, parse_number.
  destruct (negb (Py.truthy s) || String.eqb s "N/A"); [done|].
  by apply market_cap_loop_plain.
Qed.

(** ** [parse_int] on grouped digits *)

Lemma digit_facts c :
  Py.isdigit c = true ->
  Py.isspace c = false /\ Num.c_isspace c = false /\
  (Py.ord c <? 128)%N = true /\ Ascii.eqb c "_" = false.
Proof. destruct c as [[] [] [] [] [] [] [] []]; by intros. Qed.

Lemma take_sign_digit c l :
  Py.isdigit c = true -> Num.take_sign (c :: l) = (false, c :: l).
Proof. destruct c as [[] [] [] [] [] [] [] []]; by intros. Qed.

Lemma lstrip_chars_id l :
  Forall (fun c => Py.isspace c = false) l -> Py.lstrip_chars l = l.
Proof. destruct 1 as [|c l Hc _]; simpl; [done|]. by rewrite Hc. Qed.

Lemma strip_chars_id l :
  Forall (fun c => Py.isspace c = false) l -> Py.strip_chars l = l.
Proof.
  intros Hl. unfold Py.strip_chars.
  assert (Forall (fun c => Py.isspace c = false) (rev l)) as Hrev.
  { rewrite Forall_forall in Hl. apply Forall_forall.
    intros c Hc. apply Hl. by apply elem_of_rev. }
  by rewrite (lstrip_chars_id l Hl), (lstrip_chars_id _ Hrev), rev_involutive.
Qed.

Lemma int_digits_all prev l :
  Ascii.eqb prev "_" = false ->
  Forall (fun c => Py.isdigit c = true) l ->
  Num.int_digits prev l = Some (l, []).
Proof.
  intros Hprev Hl. revert prev Hprev.
  induction Hl as [|c l Hc _ IH]; intros prev Hprev; simpl.
  { by rewrite Hprev. }
  rewrite Hc, IH; [done|]. by apply digit_facts.
Qed.

Lemma int_of_digits ds :
  ds <> [] -> Forall (fun c => Py.isdigit c = true) ds ->
  (length ds <= Num.int_max_str_digits)%nat ->
  Num.int (Py.str ds) = Some (Num.digits_val ds).
Proof.
  intros Hne Hds Hlen. unfold Num.int. rewrite chars_str.
  assert (Num.to_ascii ds = ds) as ->.
  { unfold Num.to_ascii.
    assert (forallb (fun c => (Py.ord c <? 128)%N) ds = true) as ->; [|done].
    apply forallb_forall. intros c Hc%list_elem_of_In.
    rewrite Forall_forall in Hds. by apply digit_facts, Hds. }
  destruct ds as [|c l]; [done|].
  apply Forall_cons in Hds as [Hc Hl].
  assert (Num.c_lstrip (c :: l) = c :: l) as ->.
  { simpl. by destruct (digit_facts c Hc) as (_ & -> & _). }
  rewrite (take_sign_digit c l Hc).
  assert (Num.int_digits "000" (c :: l) = Some (c :: l, [])) as Hdigits.
  { apply int_digits_all; [done|by constructor]. }
  assert ((Num.int_max_str_digits <? length (c :: l))%nat = false) as Hmax
    by (apply Nat.ltb_ge; lia).
  destruct c as [[] [] [] [] [] [] [] []]; try discriminate Hc;
    rewrite Hdigits; simpl; simpl in Hmax; by rewrite Hmax.
Qed.

Lemma parse_int_of_grouped (s : string) :
  let ds := List.filter (fun x => negb (Ascii.eqb x ",")) (Py.chars s) in
  ds <> [] -> Forall (fun c => Py.isdigit c = true) ds ->
  (length ds <= 4300)%nat ->
  parse_int s = Some (Num.digits_val ds).
Proof.
  intros ds Hne Hds Hlen. unfold parse_int.
  destruct (negb (Py.truthy s) || String.eqb s "N/A") eqn:Es.
  { exfalso. apply orb_true_iff in Es as [Es|Es].
    - apply negb_true_iff, truthy_false in Es. subst s. by apply Hne.
    - apply String.eqb_eq in Es. subst s.
      by apply Forall_cons in Hds as [? _]. }
  unfold Py.strip. rewrite remove_char_chars. fold ds.
  rewrite strip_chars_id; [by apply int_of_digits|].
  eapply Forall_impl; [exact Hds|]. intros c Hc. by apply digit_facts.
Qed.

(** X11.  On a volume written in digits, with commas anywhere between them,
    [parse_int] returns the number the digits spell, for up to 4300 digits. *)
Theorem parse_int_grouped_digits (s : string) :
  let ds := List.filter (fun x => negb (Ascii.eqb x ",")) (Py.chars s) in
  ds <> [] -> Forall (fun c => Py.isdigit c = true) ds ->
  (length ds <= 4300)%nat ->
  parse_int s = Some (Num.digits_val ds).
Proof. apply parse_int_of_grouped. Qed.

Lemma parse_int_grouped_digits_witness :
  parse_int "12,345,678" = Some 12345678.
Proof.
  apply (parse_int_grouped_digits "12,345,678").
  - done.
  - by repeat constructor.
  - simpl. lia.
Defined.

(** ** File names *)







(** ** From the response to the files *)

(** X13.  Every file that the script writes holds records built from rows of
    the United States of the response, in descending order of [marketCap], none
    with an empty symbol and no two with one symbol. *)
Theorem main_files `{SortValues} (rows : list Row)
    (path : string) (frows : list Ticker) :
  (path, frows) ∈ written (main (Some rows)).2 ->
  NoDup (symbol <$> frows) /\
  StronglySorted cap_ge frows /\
  forall t, t ∈ frows ->
    symbol t <> "" /\
    exists row, row ∈ rows /\ get row "country" = Some "United States" /\
                row_symbol row = symbol t /\ t = make_ticker (symbol t) row.
Proof.
  intros Hin.
  destruct (decide (fetch_tickers (Some rows) = [])) as [E|Hne].
  { rewrite (main_empty _ E) in Hin. by apply elem_of_nil in Hin. }
  rewrite (main_found _ Hne) in Hin. cbn [snd] in Hin.
  apply written_rows_sublist in Hin.
  split; [|split].
  - apply sublist_NoDup with (symbol <$> sort_values (fetch_tickers (Some rows))).
    + rewrite sort_values_perm, fetch_tickers_appended. apply appended_NoDup.
    + by apply fmap_sublist.
  - eapply StronglySorted_sublist; [done|apply sort_values_sorted].
  - intros t Ht. eapply elem_of_sublist in Ht; [|done].
    rewrite sort_values_perm, fetch_tickers_appended in Ht.
    apply appended_sound
      in Ht as (Hs & _ & row & Hrow & Hus%non_us_false & Hsym & Ht).
    split; [done|]. by exists row.
Qed.

Lemma main_files_witness :
  let df := @sort_values stable_sort_values
              (fetch_tickers (Some [row_ca; row_us1; row_us2])) in
  NoDup (symbol <$> df) /\ StronglySorted cap_ge df.
Proof.
  intros df.
  assert (("tickers/all.csv", df)
          ∈ written (@main stable_sort_values
                       (Some [row_ca; row_us1; row_us2])).2) as Hin.
  { assert (fetch_tickers (Some [row_ca; row_us1; row_us2]) <> []) as Hne.
    { apply fetch_tickers_nonempty. exists row_us1.
      split; [right; by left|]. split.
      - unfold get, row_us1. by simplify_map_eq.
      - unfold row_symbol, get_or_empty, row_us1.
        rewrite lookup_insert_ne, lookup_insert_eq by done. done. }
    rewrite (main_found _ Hne). cbn [snd].
    rewrite save_files_written by done. apply elem_of_app. left. by left. }
  destruct (@main_files stable_sort_values _ _ _ Hin) as (Hnd & Hs & _).
  by split.
Defined.

(** ** Prices and market capitalisations in digits *)

Lemma c_lstrip_id l :
  Forall (fun c => Num.c_isspace c = false) l -> Num.c_lstrip l = l.
Proof. destruct 1 as [|c l Hc _]; simpl; [done|]. by rewrite Hc. Qed.

Lemma c_strip_id l :
  Forall (fun c => Num.c_isspace c = false) l -> Num.c_strip l = l.
Proof.
  intros Hl. unfold Num.c_strip.
  assert (Forall (fun c => Num.c_isspace c = false) (rev l)) as Hrev.
  { rewrite Forall_forall in Hl. apply Forall_forall.
    intros c Hc. apply Hl. by apply elem_of_rev. }
  by rewrite (c_lstrip_id l Hl), (c_lstrip_id _ Hrev), rev_involutive.
Qed.

Lemma inf_or_nan_digit c l :
  Py.isdigit c = true -> Num.inf_or_nan false (c :: l) = None.
Proof. destruct c as [[] [] [] [] [] [] [] []]; by intros. Qed.

Lemma span_digits_all l :
  Forall (fun c => Py.isdigit c = true) l -> Num.span_digits l = (l, []).
Proof. induction 1 as [|c l Hc _ IH]; simpl; [done|]. by rewrite Hc, IH. Qed.

Lemma fold_digits_nonneg l acc :
  Forall (fun c => Py.isdigit c = true) l -> 0 <= acc ->
  0 <= fold_left (fun acc c => 10 * acc + Num.digit_val c) l acc.
Proof.
  intros Hl. revert acc.
  induction Hl as [|c l Hc _ IH]; intros acc Hacc; simpl; [done|].
  apply IH. assert (0 <= Num.digit_val c); [|lia].
  clear -Hc. by destruct c as [[] [] [] [] [] [] [] []].
Qed.

Lemma digits_val_nonneg l :
  Forall (fun c => Py.isdigit c = true) l -> 0 <= Num.digits_val l.
Proof. intros Hl. by apply fold_digits_nonneg. Qed.

Lemma of_decimal_integer n :
  0 <= n -> Num.of_decimal false n 0 = Num.of_Z n.
Proof.
  intros Hn. destruct n as [|p|p]; [done| |lia].
  unfold Num.of_decimal, Num.of_Z, binary_normalize. simpl.
  by rewrite Pos.mul_1_r.
Qed.

Lemma float_of_digits ds :
  ds <> [] -> Forall (fun c => Py.isdigit c = true) ds ->
  Num.float (Py.str ds) = Some (Num.of_Z (Num.digits_val ds)).
Proof.
  intros Hne Hds. unfold Num.float. rewrite chars_str.
  assert (Num.to_ascii ds = ds) as ->.
  { unfold Num.to_ascii.
    assert (forallb (fun c => (Py.ord c <? 128)%N) ds = true) as ->; [|done].
    apply forallb_forall. intros c Hc%list_elem_of_In.
    rewrite Forall_forall in Hds. by apply digit_facts, Hds. }
  assert (existsb (fun c => Ascii.eqb c "_") ds = false) as ->.
  { apply not_true_is_false. intros (c & Hc%list_elem_of_In & E)%existsb_exists.
    rewrite Forall_forall in Hds.
    destruct (digit_facts c (Hds c Hc)) as (_ & _ & _ & Hu). congruence. }
  simpl.
  rewrite c_strip_id
    by (eapply Forall_impl; [exact Hds|]; intros c Hc; by apply digit_facts).
  destruct ds as [|c l]; [done|].
  pose proof Hds as Hall. apply Forall_cons in Hds as [Hc Hl].
  rewrite (take_sign_digit c l Hc), (inf_or_nan_digit c l Hc).
  unfold Num.decimal. rewrite (span_digits_all _ Hall), app_nil_r.
  simpl. f_equal. apply of_decimal_integer. by apply digits_val_nonneg.
Qed.

Lemma digits_not_suffix ds p x :
  Forall (fun c => Py.isdigit c = true) ds ->
  Py.str ds = p +:+ String x "" ->
  x ∉ ["T"%char; "B"%char; "M"%char; "K"%char].
Proof.
  intros Hds E. apply (f_equal Py.chars) in E.
  rewrite chars_str, chars_app in E. simpl in E.
  assert (Py.isdigit x = true) as Hx.
  { rewrite Forall_forall in Hds. apply Hds. rewrite E.
    apply elem_of_app. right. by left. }
  intros Hin. repeat (apply elem_of_cons in Hin as [->|Hin]; [done|]).
  by apply elem_of_nil in Hin.
Qed.

(** X14.  A price or a market capitalisation written in digits, with commas and
    dollar signs anywhere, is parsed to the float nearest the number the digits
    spell, however many digits there are; and where [parse_int] reads the same
    text, which it does when there is no dollar sign and no more than 4300
    digits, it returns that number. *)
Theorem parse_number_grouped_digits (s : string) :
  let ds := List.filter (fun x => negb (Ascii.eqb x ","))
              (List.filter (fun x => negb (Ascii.eqb x "$")) (Py.chars s)) in
  ds <> [] -> Forall (fun c => Py.isdigit c = true) ds ->
  parse_number s = Some (Num.of_Z (Num.digits_val ds)) /\
  parse_market_cap s = Some (Num.of_Z (Num.digits_val ds)) /\
  ("$"%char ∉ Py.chars s -> (length ds <= 4300)%nat ->
   parse_int s = Some (Num.digits_val ds)).
Proof.
  intros ds Hne Hds.
  assert (negb (Py.truthy s) || String.eqb s "N/A" = false) as Hs.
  { apply not_true_is_false. intros [Es|Es]%orb_true_iff.
    - apply negb_true_iff, truthy_false in Es. subst s. by apply Hne.
    - apply String.eqb_eq in Es. subst s.
      by apply Forall_cons in Hds as [? _]. }
  assert (cleaned s = Py.str ds) as Hclean.
  { unfold cleaned, Py.strip. rewrite !remove_char_chars. fold ds.
    rewrite strip_chars_id; [done|].
    eapply Forall_impl; [exact Hds|]. intros c Hc. by apply digit_facts. }
  split; [|split].
  - unfold parse_number. rewrite Hs. fold (cleaned s). rewrite Hclean.
    by apply float_of_digits.
  - unfold parse_market_cap. rewrite Hs. fold (cleaned s).
    rewrite Hclean, market_cap_loop_plain; [by apply float_of_digits|].
    intros p x. by apply digits_not_suffix.
  - intros Hdollar Hlen.
    assert (ds = List.filter (fun x => negb (Ascii.eqb x ",")) (Py.chars s))
      as Eds.
    { unfold ds.
      by rewrite <-remove_char_chars, (remove_char_absent "$" s Hdollar). }
    rewrite Eds in *. by apply parse_int_of_grouped.
Qed.

Lemma parse_number_grouped_digits_witness :
  parse_number "$1,250" = Some (Num.of_Z 1250) /\
  parse_market_cap "$1,250" = Some (Num.of_Z 1250).
Proof.
  destruct (parse_number_grouped_digits "$1,250") as (Hn & Hm & _).
  - done.
  - by repeat constructor.
  - by split.
Defined.

(** ** The ticker lists, one in another *)

Lemma save_files_list_lookup `{SortValues} (tickers : list Ticker)
    (fs : FileSystem) p rows ws1 ws2 :
  tickers <> [] ->
  list_writes (sort_values tickers) = ws1 ++ (p, rows) :: ws2 ->
  p ∉ ws2.*1 -> (forall rest, p <> String "b" rest) ->
  files (run_trace (save_files tickers).2 fs) !! p = Some rows.
Proof.
  intros Hne E Hp Hb.
  rewrite run_trace_files, save_files_written, E by done.
  rewrite <-app_assoc. simpl. apply write_all_last.
  rewrite fmap_app. apply not_elem_of_app. split; [done|].
  intros (rest & ->)%industry_writes_paths. by eapply Hb.
Qed.

Lemma take_prefix_le {A} (l : list A) n m :
  (n <= m)%nat -> take n l `prefix_of` take m l.
Proof.
  intros Hle. replace (take n l) with (take n (take m l)).
  - apply prefix_take.
  - rewrite take_take. f_equal. lia.
Qed.

(** X15.  After a run on a sequence that is not empty the four ticker lists lie
    one in another: [top_50] is the beginning of [top_100], that of [top_200],
    and that of [all]. *)
Theorem save_files_top_lists_nested `{SortValues} (tickers : list Ticker)
    (fs : FileSystem) :
  tickers <> [] ->
  let fs' := run_trace (save_files tickers).2 fs in
  exists t50 t100 t200 all,
    files fs' !! "tickers/top_50.csv" = Some t50 /\
    files fs' !! "tickers/top_100.csv" = Some t100 /\
    files fs' !! "tickers/top_200.csv" = Some t200 /\
    files fs' !! "tickers/all.csv" = Some all /\
    t50 `prefix_of` t100 /\ t100 `prefix_of` t200 /\ t200 `prefix_of` all.
Proof.
  intros Hne fs'. set (df := sort_values tickers).
  exists (take 50 df), (take 100 df), (take 200 df), df.
  split; [|split; [|split; [|split]]].
  - apply (save_files_list_lookup _ _ _ _ (take 1 (list_writes df))
             (drop 2 (list_writes df))); [done..| |done].
    simpl. by apply (bool_decide_unpack _).
  - apply (save_files_list_lookup _ _ _ _ (take 2 (list_writes df))
             (drop 3 (list_writes df))); [done..| |done].
    simpl. by apply (bool_decide_unpack _).
  - apply (save_files_list_lookup _ _ _ _ (take 3 (list_writes df)) []);
      [done..| |done].
    simpl. apply not_elem_of_nil.
  - apply (save_files_list_lookup _ _ _ _ [] (tail (list_writes df)));
      [done..| |done].
    simpl. by apply (bool_decide_unpack _).
  - split; [apply take_prefix_le; lia|].
    split; [apply take_prefix_le; lia|apply prefix_take].
Qed.

Lemma save_files_top_lists_nested_witness :
  exists t50 all,
    files (run_trace (@save_files stable_sort_values [t_mid; t_big]).2
             fs_empty) !! "tickers/top_50.csv" = Some t50 /\
    files (run_trace (@save_files stable_sort_values [t_mid; t_big]).2
             fs_empty) !! "tickers/all.csv" = Some all /\
    t50 `prefix_of` all.
Proof.
  assert ([t_mid; t_big] <> []) as Hne by done.
  destruct (@save_files_top_lists_nested stable_sort_values _ fs_empty Hne)
    as (t50 & t100 & t200 & all & H50 & _ & _ & Hall & P1 & P2 & P3).
  exists t50, all. split; [exact H50|]. split; [exact Hall|].
  by do 2 etrans.
Defined.
